(** * A B-spline camera model: the basis evaluator and the surface sampler

    Shallow embedding of [central_model.py] (class [CentralModel]) and
    proofs about its basis-function recursion [__B__], its constructor and
    its sampling operations.

    Numbers are exact rationals ([Q]): Python's floats are idealised, so
    every statement below is about exact arithmetic.  Python exceptions are
    values of [result]. *)

From Stdlib Require Import Reals Qreals Lra.
From Stdlib Require Import String.
From Stdlib Require Import QArith Qround ZArith List Bool Lia Lqa Arith.
Import ListNotations.

Local Open Scope Z_scope.
Local Open Scope Q_scope.

(** ** Exceptions and results *)

Inductive exn : Set :=
| AssertionError
| IndexError
| ZeroDivisionError
| RecursionError.

Inductive result (A : Type) : Type :=
| Ok (a : A)
| Raise (e : exn).

Arguments Ok {A} a.
Arguments Raise {A} e.

Definition bind {A B : Type} (r : result A) (f : A -> result B) : result B :=
  match r with
  | Ok a => f a
  | Raise e => Raise e
  end.

(** A computation that may also run out of recursion fuel ([None]). *)
Definition fueled (A : Type) : Type := option (result A).

Definition fbind {A B : Type} (c : fueled A) (f : A -> fueled B) : fueled B :=
  match c with
  | Some (Ok a) => f a
  | Some (Raise e) => Some (Raise e)
  | None => None
  end.

Definition fret {A : Type} (a : A) : fueled A := Some (Ok a).
Definition lift {A : Type} (r : result A) : fueled A := Some r.

Declare Scope py_scope.
Delimit Scope py_scope with py.
Notation "x <- c ;; k" := (bind c (fun x => k))
  (at level 61, c at next level, right associativity) : py_scope.
Notation "x <~ c ;; k" := (fbind c (fun x => k))
  (at level 61, c at next level, right associativity) : py_scope.
Local Open Scope py_scope.

(** ** Python primitives *)

Definition Qlt_bool (x y : Q) : bool := negb (Qle_bool y x).

(** [t[i]] on a sequence: a negative index counts from the end, anything
    outside [-len, len) raises [IndexError]. *)
Definition getitem (t : list Q) (i : Z) : result Q :=
  let len := Z.of_nat (length t) in
  let j := if (i <? 0)%Z then (i + len)%Z else i in
  if ((0 <=? j)%Z && (j <? len)%Z)%bool
  then Ok (nth (Z.to_nat j) t 0)
  else Raise IndexError.

(** [a / b] on Python numbers. *)
Definition truediv (a b : Q) : result Q :=
  if Qeq_bool b 0 then Raise ZeroDivisionError else Ok (a / b).

(** ** The basis function [CentralModel.__B__] *)

(** [term1a = term1b = 1] when the denominator is zero. *)
Definition degenerate (terma termb : Q) : Q * Q :=
  if Qeq_bool termb 0 then (1, 1) else (terma, termb).

Fixpoint B_fuel (fuel : nat) (i k : Z) (t : list Q) (x : Q) : fueled Q :=
  match fuel with
  | O => None
  | S fuel' =>
    if (k =? 0)%Z then
      ti <~ lift (getitem t i) ;;
      if Qle_bool ti x then
        ti1 <~ lift (getitem t (i + 1)) ;;
        if Qlt_bool x ti1 then fret 1 else fret 0
      else fret 0
    else
      ti <~ lift (getitem t i) ;;
      let term1a := x - ti in
      tik <~ lift (getitem t (i + k)) ;;
      ti' <~ lift (getitem t i) ;;
      let term1b := tik - ti' in
      term1c <~ B_fuel fuel' i (k - 1) t x ;;
      let '(term1a, term1b) := degenerate term1a term1b in
      tik1 <~ lift (getitem t (i + k + 1)) ;;
      let term2a := tik1 - x in
      tik1' <~ lift (getitem t (i + k + 1)) ;;
      ti1 <~ lift (getitem t (i + 1)) ;;
      let term2b := tik1' - ti1 in
      term2c <~ B_fuel fuel' (i + 1) (k - 1) t x ;;
      let '(term2a, term2b) := degenerate term2a term2b in
      q1 <~ lift (truediv term1a term1b) ;;
      q2 <~ lift (truediv term2a term2b) ;;
      fret (q1 * term1c + q2 * term2c)
  end.

(** Recursion depth that is always enough: [k + 1] levels for [k >= 0];
    for [k < 0] the index [i + k] leaves the sequence after at most
    [i + k + len + 1] further levels. *)
Definition B_depth (i k : Z) (t : list Q) : nat :=
  S (Z.to_nat (Z.max k (i + k + Z.of_nat (length t) + 1))).

Definition B (i k : Z) (t : list Q) (x : Q) : result Q :=
  match B_fuel (B_depth i k t) i k t x with
  | Some r => r
  | None => Raise RecursionError
  end.


(** One level of the recursion of [__B__] for [k <> 0], given the results
    of the two recursive calls. *)
Definition B_step (i k : Z) (t : list Q) (x : Q) (sub1 sub2 : result Q)
  : result Q :=
  ti <- getitem t i ;;
  let term1a := x - ti in
  tik <- getitem t (i + k) ;;
  ti' <- getitem t i ;;
  let term1b := tik - ti' in
  term1c <- sub1 ;;
  let '(term1a, term1b) := degenerate term1a term1b in
  tik1 <- getitem t (i + k + 1) ;;
  let term2a := tik1 - x in
  tik1' <- getitem t (i + k + 1) ;;
  ti1 <- getitem t (i + 1) ;;
  let term2b := tik1' - ti1 in
  term2c <- sub2 ;;
  let '(term2a, term2b) := degenerate term2a term2b in
  q1 <- truediv term1a term1b ;;
  q2 <- truediv term2a term2b ;;
  Ok (q1 * term1c + q2 * term2c).

(** The base case of [__B__]. *)
Definition B_base (i : Z) (t : list Q) (x : Q) : result Q :=
  ti <- getitem t i ;;
  if Qle_bool ti x then
    ti1 <- getitem t (i + 1) ;;
    if Qlt_bool x ti1 then Ok 1 else Ok 0
  else Ok 0.

(** The knot at an index that is in range. *)
Definition knot (t : list Q) (j : Z) : Q := nth (Z.to_nat j) t (last t 0).

(** The coefficient of a term of the recursion. *)
Definition coef (terma termb : Q) : Q :=
  if Qeq_bool termb 0 then 1 else terma / termb.

Definition w1 (kn : Z -> Q) (x : Q) (k : nat) (i : Z) : Q :=
  coef (x - kn i) (kn (i + Z.of_nat (S k))%Z - kn i).

Definition w2 (kn : Z -> Q) (x : Q) (k : nat) (i : Z) : Q :=
  coef (kn (i + Z.of_nat (S k) + 1)%Z - x)
       (kn (i + Z.of_nat (S k) + 1)%Z - kn (i + 1)%Z).

(** The value of [__B__] when every knot it reads is in range: the same
    recursion over a total knot function. *)
Fixpoint Bt (kn : Z -> Q) (k : nat) (i : Z) (x : Q) : Q :=
  match k with
  | O =>
      if Qle_bool (kn i) x
      then (if Qlt_bool x (kn (i + 1)%Z) then 1 else 0)
      else 0
  | S k' =>
      let kz := Z.of_nat (S k') in
      let '(term1a, term1b) :=
        degenerate (x - kn i) (kn (i + kz)%Z - kn i) in
      let '(term2a, term2b) :=
        degenerate (kn (i + kz + 1)%Z - x) (kn (i + kz + 1)%Z - kn (i + 1)%Z) in
      term1a / term1b * Bt kn k' i x + term2a / term2b * Bt kn k' (i + 1)%Z x
  end.

(** ** Vectors and arrays *)

Definition vec3 : Type := (Q * Q * Q)%type.

Definition vzero : vec3 := (0, 0, 0).

Definition vadd (a b : vec3) : vec3 :=
  let '(a0, a1, a2) := a in
  let '(b0, b1, b2) := b in
  (a0 + b0, a1 + b1, a2 + b2).

(** [np.multiply(a, s)] for a vector [a] and a scalar [s]. *)
Definition vscale (a : vec3) (s : Q) : vec3 :=
  let '(a0, a1, a2) := a in (a0 * s, a1 * s, a2 * s).

Definition veq (a b : vec3) : Prop :=
  let '(a0, a1, a2) := a in
  let '(b0, b1, b2) := b in
  a0 == b0 /\ a1 == b1 /\ a2 == b2.

(** A numpy array: its shape and its entries by multi-index. *)
Record ndarray : Type := {
  shape : list nat;
  item : list nat -> Q
}.

(** The vector at grid node [(i, j)] of a rank-3 array. *)
Definition node (a : ndarray) (i j : nat) : vec3 :=
  (item a [i; j; 0%nat], item a [i; j; 1%nat], item a [i; j; 2%nat]).

(** [a[i, j]] on an array of shape [(n, m, 3)], for indices that are not
    negative. *)
Definition getitem2 (a : ndarray) (i j : nat) : result vec3 :=
  match shape a with
  | [n; m; 3%nat] =>
      if ((i <? n)%nat && (j <? m)%nat)%bool then Ok (node a i j)
      else Raise IndexError
  | _ => Raise IndexError
  end.

(** The values a caller may pass for [image_dimensions] and
    [grid_dimensions]: only a tuple passes [isinstance(_, tuple)]. *)
Inductive py_seq : Type :=
| PyTuple (items : list Q)
| PyList (items : list Q).

Definition is_tuple (d : py_seq) : bool :=
  match d with PyTuple _ => true | PyList _ => false end.

Definition seq_items (d : py_seq) : list Q :=
  match d with PyTuple l => l | PyList l => l end.

(** The values a caller may pass for [control_points]. *)
Inductive py_array : Type :=
| Ndarray (a : ndarray)
| NotNdarray.

(** ** The knot generators (module [knot_generators], imported as [kg]) *)

(** Modelled from the spec: the module [knot_generators] is not part of the
    sources; its two functions are taken as parameters of the
    constructor. *)
Record KnotVectorProvider : Type := {
  open_uniform : nat -> nat -> list Q;
  uniform : nat -> nat -> list Q
}.

Definition non_decreasing (t : list Q) : Prop :=
  forall j : nat, (S j < length t)%nat -> nth j t 0 <= nth (S j) t 0.

(** Modelled from the spec: the contract of [knot_generators] (section 4.1
    and the knot-vector invariants of section 3): both strategies return a
    non-decreasing sequence of length [count + order + 2]. *)
Record knot_contract (kg : KnotVectorProvider) : Prop := {
  open_uniform_length : forall count order : nat, (order < count)%nat ->
    length (open_uniform kg count order) = (count + order + 2)%nat;
  open_uniform_sorted : forall count order : nat, (order < count)%nat ->
    non_decreasing (open_uniform kg count order);
  uniform_length : forall count order : nat, (order < count)%nat ->
    length (uniform kg count order) = (count + order + 2)%nat;
  uniform_sorted : forall count order : nat, (order < count)%nat ->
    non_decreasing (uniform kg count order)
}.

Definition Qclamp01 (q : Q) : Q :=
  if Qle_bool q 0 then 0 else if Qle_bool 1 q then 1 else q.

(** Modelled from the spec: [open_uniform(count, order)], missing from the
    sources: [count + order + 2] knots, the first and the last [order + 1]
    of them clamped to the bounds 0 and 1, the [count - order] interior
    knots uniformly spaced. *)
Definition spec_open_uniform (count order : nat) : list Q :=
  map (fun j : nat =>
         Qclamp01 ((Z.of_nat j - Z.of_nat order) # Pos.of_nat (count - order + 1)))
      (seq 0 (count + order + 2)).

(** Modelled from the spec: [uniform(count, order)], missing from the
    sources: [count + order + 2] uniformly spaced knots from 0 to 1, not
    clamped. *)
Definition spec_uniform (count order : nat) : list Q :=
  map (fun j : nat => Z.of_nat j # Pos.of_nat (count + order + 1))
      (seq 0 (count + order + 2)).

Definition spec_kg : KnotVectorProvider :=
  {| open_uniform := spec_open_uniform; uniform := spec_uniform |}.

(** ** The model and its constructor [CentralModel.__init__] *)

Record CentralModel : Type := {
  image_width : Q;
  image_height : Q;
  grid_width : Q;
  grid_height : Q;
  n : nat;
  m : nat;
  a : ndarray;
  order : nat;
  th : list Q;
  tv : list Q;
  min_basis_value : Q
}.

(** [assert b]. *)
Definition py_assert (b : bool) : result unit :=
  if b then Ok tt else Raise AssertionError.

(** [d[i]] on a tuple or list, for an index that is not negative. *)
Definition seq_getitem (d : py_seq) (i : nat) : result Q :=
  match nth_error (seq_items d) i with
  | Some q => Ok q
  | None => Raise IndexError
  end.

(** [control_points.shape[i]] for an index that is not negative. *)
Definition shape_getitem (a : ndarray) (i : nat) : result nat :=
  match nth_error (shape a) i with
  | Some d => Ok d
  | None => Raise IndexError
  end.

Definition is_rank3_depth3 (control_points : py_array) : bool :=
  match control_points with
  | Ndarray a =>
      ((length (shape a) =? 3)%nat && (last (shape a) 0 =? 3)%nat)%bool
  | NotNdarray => false
  end.

(** The order of the interpolation is a natural number.  The two [if]s on
    [knot_method] are tested one after the other, as in the source; after
    the first assertion exactly one of them fires. *)
Definition init (kg : KnotVectorProvider)
    (image_dimensions grid_dimensions : py_seq) (control_points : py_array)
    (order : nat) (knot_method : string)
    (min_basis_value end_divergence : Q) : result CentralModel :=
  _ <- py_assert (existsb (String.eqb knot_method)
                          ["open_uniform"%string; "uniform"%string]) ;;
  _ <- py_assert (is_tuple image_dimensions
                  && (length (seq_items image_dimensions) =? 2)%nat) ;;
  _ <- py_assert (is_tuple grid_dimensions
                  && (length (seq_items grid_dimensions) =? 2)%nat) ;;
  _ <- py_assert (is_rank3_depth3 control_points) ;;
  match control_points with
  | NotNdarray => Raise AssertionError
  | Ndarray cp =>
    shape0 <- shape_getitem cp 0 ;;
    shape1 <- shape_getitem cp 1 ;;
    _ <- py_assert ((order <? shape0)%nat && (order <? shape1)%nat) ;;
    image_width <- seq_getitem image_dimensions 0 ;;
    image_height <- seq_getitem image_dimensions 1 ;;
    grid_width <- seq_getitem grid_dimensions 0 ;;
    grid_height <- seq_getitem grid_dimensions 1 ;;
    let n := shape0 in
    let m := shape1 in
    let knots : list Q * list Q := ([], []) in
    let knots :=
      if String.eqb knot_method "open_uniform"
      then (open_uniform kg n order, open_uniform kg m order) else knots in
    let knots :=
      if String.eqb knot_method "uniform"
      then (uniform kg n order, uniform kg m order) else knots in
    Ok {| image_width := image_width; image_height := image_height;
          grid_width := grid_width; grid_height := grid_height;
          n := n; m := m; a := cp; order := order;
          th := fst knots; tv := snd knots;
          min_basis_value := min_basis_value |}
  end.

(** ** Sampling: [CentralModel.sample] *)

Fixpoint mapM {A B : Type} (f : A -> result B) (l : list A) : result (list B) :=
  match l with
  | [] => Ok []
  | x :: l' => y <- f x ;; ys <- mapM f l' ;; Ok (y :: ys)
  end.

Fixpoint foldM {A S : Type} (f : S -> A -> result S) (l : list A) (s : S)
  : result S :=
  match l with
  | [] => Ok s
  | x :: l' => s' <- f s x ;; foldM f l' s'
  end.

(** [np.where(b >= c)[0]]: the indices of the entries that reach [c], in
    increasing order. *)
Definition np_where_ge (b : list Q) (c : Q) : list nat :=
  filter (fun i : nat => Qle_bool c (nth i b 0)) (seq 0 (length b)).

(** [[self.__B__(i, self.order, t, x) for i in range(count)]]. *)
Definition basis_row (count order : nat) (t : list Q) (x : Q) : result (list Q) :=
  mapM (fun i : nat => B (Z.of_nat i) (Z.of_nat order) t x) (seq 0 count).

Definition sample (self : CentralModel) (u v : Q) : result vec3 :=
  let u := u + (grid_width self - image_width self) / 2 in
  u <- truediv u (grid_width self - 1) ;;
  let v := v + (grid_height self - image_height self) / 2 in
  v <- truediv v (grid_height self - 1) ;;
  Bh <- basis_row (n self) (order self) (tv self) u ;;
  Bv <- basis_row (m self) (order self) (th self) v ;;
  let vi := np_where_ge Bh (min_basis_value self) in
  let vj := np_where_ge Bv (min_basis_value self) in
  let res := vzero in
  foldM (fun res i =>
    foldM (fun res j =>
      aij <- getitem2 (a self) i j ;;
      bhi <- getitem Bh (Z.of_nat i) ;;
      bvj <- getitem Bv (Z.of_nat j) ;;
      Ok (vadd res (vscale aij (bhi * bvj)))) vj res) vi res.

(** ** Normalised sampling: [CentralModel.sample_normalized] *)

(** A numpy [float64] result, with the special values a division can
    produce. *)
Inductive np_float : Type :=
| np_finite (r : R)
| np_nan
| np_inf
| np_neg_inf.

Definition dot (s1 s2 : vec3) : Q :=
  let '(a0, a1, a2) := s1 in
  let '(b0, b1, b2) := s2 in
  a0 * b0 + a1 * b1 + a2 * b2.

(** [np.linalg.norm(s)]. *)
Definition np_linalg_norm (s : vec3) : R := sqrt (Q2R (dot s s)).

(** numpy's [c / d] on floats: a zero divisor raises nothing and gives
    [nan] or an infinity (with a warning only). *)
Definition np_true_divide (c : Q) (d : R) : np_float :=
  if Req_dec_T d 0%R then
    if Qeq_bool c 0 then np_nan
    else if Qle_bool 0 c then np_inf else np_neg_inf
  else np_finite (Q2R c / d)%R.

Definition sample_normalized (self : CentralModel) (u v : Q)
  : result (np_float * np_float * np_float) :=
  s <- sample self u v ;;
  let d := np_linalg_norm s in
  let '(s0, s1, s2) := s in
  Ok (np_true_divide s0 d, np_true_divide s1 d, np_true_divide s2 d).

(** ** The quantities the specification talks about *)

(** The parameter a pixel coordinate is mapped to. *)
Definition mapped (grid image p : Q) : Q :=
  (p + (grid - image) / 2) / (grid - 1).

Fixpoint vsum (count : nat) (f : nat -> vec3) : vec3 :=
  match count with
  | O => vzero
  | S c => vadd (vsum c f) (f c)
  end.

(** The sum over [i] in [I] and [j] in [J] of
    [controlPoints[i][j] * Bh[i] * Bv[j]], with
    [I = {i : Bh[i] >= minBasisValue}] and [J] alike. *)
Definition truncated_sum (self : CentralModel) (Bh Bv : nat -> Q) : vec3 :=
  vsum (n self) (fun i =>
    if Qle_bool (min_basis_value self) (Bh i) then
      vsum (m self) (fun j =>
        if Qle_bool (min_basis_value self) (Bv j)
        then vscale (node (a self) i j) (Bh i * Bv j) else vzero)
    else vzero).

(** The sum over all [i] in [0, n) and [j] in [0, m). *)
Definition full_sum (self : CentralModel) (Bh Bv : nat -> Q) : vec3 :=
  vsum (n self) (fun i =>
    vsum (m self) (fun j => vscale (node (a self) i j) (Bh i * Bv j))).

(** Every quantity of the sampling formula is defined: the two divisors
    are not zero and every basis value exists ([Bh] against the vertical
    knots [tv], [Bv] against the horizontal knots [th]). *)
Definition sample_defined (self : CentralModel) (u v : Q) (Bh Bv : nat -> Q)
  : Prop :=
  ~ grid_width self - 1 == 0 /\
  ~ grid_height self - 1 == 0 /\
  (forall i : nat, (i < n self)%nat ->
     B (Z.of_nat i) (Z.of_nat (order self)) (tv self)
       (mapped (grid_width self) (image_width self) u) = Ok (Bh i)) /\
  (forall j : nat, (j < m self)%nat ->
     B (Z.of_nat j) (Z.of_nat (order self)) (th self)
       (mapped (grid_height self) (image_height self) v) = Ok (Bv j)).

(** The sum of the first [count] basis functions at [x]. *)
Fixpoint Qsum (count : nat) (f : nat -> Q) : Q :=
  match count with
  | O => 0
  | S c => Qsum c f + f c
  end.

(** The sum over [i] in [0, count) of [B(i, order, knots, x)]. *)
Definition basis_sum (count order : nat) (t : list Q) (x : Q) : result Q :=
  row <- basis_row count order t x ;;
  Ok (fold_right Qplus 0 row).

Fixpoint non_decreasingb (t : list Q) : bool :=
  match t with
  | q :: t' =>
      match t' with
      | q' :: _ => (Qle_bool q q' && non_decreasingb t')%bool
      | [] => true
      end
  | [] => true
  end.

(** The conditions of section 7 under which construction goes through. *)
Definition recognised (knot_method : string) : Prop :=
  knot_method = "open_uniform"%string \/ knot_method = "uniform"%string.

Definition two_tuple (d : py_seq) : Prop :=
  exists w h : Q, d = PyTuple [w; h].

Definition config_ok (image_dimensions grid_dimensions : py_seq)
    (control_points : py_array) (order : nat) (knot_method : string) : Prop :=
  recognised knot_method /\
  two_tuple image_dimensions /\
  two_tuple grid_dimensions /\
  exists (cp : ndarray) (n m : nat),
    control_points = Ndarray cp /\ shape cp = [n; m; 3%nat] /\
    (order < Nat.min n m)%nat.

(** What the constructor establishes. *)
Record constructed (kg : KnotVectorProvider) (self : CentralModel) : Prop := {
  constructed_shape : shape (a self) = [n self; m self; 3%nat];
  constructed_order_n : (order self < n self)%nat;
  constructed_order_m : (order self < m self)%nat;
  constructed_knots :
    (th self = open_uniform kg (n self) (order self) /\
     tv self = open_uniform kg (m self) (order self)) \/
    (th self = uniform kg (n self) (order self) /\
     tv self = uniform kg (m self) (order self))
}.

(** The parameter [x] lies in the support of none of the first [count]
    basis functions of order [order]. *)
Definition outside_supports (t : list Q) (count order : nat) (x : Q) : Prop :=
  forall i : nat, (i < count)%nat ->
    ~ (nth i t 0 <= x /\ x < nth (i + order + 1) t 0).

(** ** A concrete model (scenario A of section 8) *)

(** An [n] by [m] grid whose control points are all [c]. *)
Definition constant_grid (n m : nat) (c : vec3) : ndarray :=
  {| shape := [n; m; 3%nat];
     item := fun idx =>
       match idx with
       | [_; _; 0%nat] => fst (fst c)
       | [_; _; 1%nat] => snd (fst c)
       | [_; _; 2%nat] => snd c
       | _ => 0
       end |}.

Definition scenario_A : CentralModel :=
  {| image_width := 100; image_height := 100;
     grid_width := 100; grid_height := 100;
     n := 5; m := 5; a := constant_grid 5 5 (0, 0, 1); order := 2;
     th := spec_open_uniform 5 2; tv := spec_open_uniform 5 2;
     min_basis_value := 1 # 1000 |}.

(** ** A second concrete model (scenario B of section 8) *)

(** An [n] by [m] grid whose control point [(i, j)] is
    [(100 i + 10 j, 100 i + 10 j + 1, 100 i + 10 j + 2)]. *)
Definition index_grid (n m : nat) : ndarray :=
  {| shape := [n; m; 3%nat];
     item := fun idx =>
       match idx with
       | [i; j; k] => inject_Z (Z.of_nat (100 * i + 10 * j + k))
       | _ => 0
       end |}.

Definition scenario_B : CentralModel :=
  {| image_width := 5; image_height := 5;
     grid_width := 5; grid_height := 5;
     n := 3; m := 3; a := index_grid 3 3; order := 0;
     th := spec_uniform 3 0; tv := spec_uniform 3 0;
     min_basis_value := 1 # 1000 |}.

(** ** The grid of samples: [CentralModel.sample_grid] *)

(** [np.floor] on a number. *)
Definition np_floor (q : Q) : Q := inject_Z (Qfloor q).

(** [np.arange(0, count)]. *)
Definition np_arange (count : nat) : list Q :=
  map (fun k : nat => inject_Z (Z.of_nat k)) (seq 0 count).

(** [np.floor((extent - 1) / (count - 1) * np.arange(0, count))]: the
    quotient is taken on Python numbers, before the array comes in. *)
Definition grid_axis (extent : Q) (count : nat) : result (list Q) :=
  step <- truediv (extent - 1) (inject_Z (Z.of_nat count - 1)) ;;
  Ok (map (fun k : Q => np_floor (step * k)) (np_arange count)).

(** [np.meshgrid(xs, ys)]: two arrays of [len(ys)] rows and [len(xs)]
    columns; the first holds [xs] in every row, the second holds the entry
    of [ys] of its row in every column. *)
Definition np_meshgrid (xs ys : list Q) : list (list (list Q)) :=
  [map (fun _ : Q => xs) ys; map (fun y : Q => map (fun _ : Q => y) xs) ys].

(** [np.transpose] of a rank-3 array given by nested lists: the axes are
    reversed, entry [(i, j, k)] is entry [(k, j, i)] of the argument. *)
Definition np_transpose (arr : list (list (list Q))) : list (list (list Q)) :=
  let d0 := length arr in
  let d1 := length (nth 0 arr []) in
  let d2 := length (nth 0 (nth 0 arr []) []) in
  map (fun i : nat =>
         map (fun j : nat =>
                map (fun k : nat => nth i (nth j (nth k arr []) []) 0)
                    (seq 0 d0))
             (seq 0 d1))
      (seq 0 d2).

(** [arr[i, j, k]] for indices that are not negative. *)
Definition getitem3 (arr : list (list (list Q))) (i j k : nat) : result Q :=
  match nth_error arr i with
  | None => Raise IndexError
  | Some row =>
      match nth_error row j with
      | None => Raise IndexError
      | Some cell =>
          match nth_error cell k with
          | None => Raise IndexError
          | Some q => Ok q
          end
      end
  end.

(** A computation in which numpy may produce an infinity or [nan]; these
    are not modelled ([None]). *)
Definition finite (A : Type) : Type := option (result A).

(** [self.sample(u, v)] on numpy scalars, as [sample_grid] calls it: where
    [sample] on Python numbers raises [ZeroDivisionError], numpy divides
    without raising and yields an infinity or [nan]; anywhere else the call
    is [sample]. *)
Definition np_sample (self : CentralModel) (u v : Q) : finite vec3 :=
  if Qeq_bool (grid_width self - 1) 0 then None
  else if Qeq_bool (grid_height self - 1) 0 then None
  else Some (sample self u v).

Fixpoint fmapM {A B : Type} (f : A -> finite B) (l : list A)
  : finite (list B) :=
  match l with
  | [] => fret []
  | x :: l' => y <~ f x ;; ys <~ fmapM f l' ;; fret (y :: ys)
  end.

(** The array [samples], row by row. *)
Definition sample_grid (self : CentralModel) : finite (list (list vec3)) :=
  xs <~ lift (grid_axis (grid_width self) (n self)) ;;
  ys <~ lift (grid_axis (grid_height self) (m self)) ;;
  let pts := np_transpose (np_meshgrid xs ys) in
  fmapM (fun i : nat =>
    fmapM (fun j : nat =>
      u <~ lift (getitem3 pts i j 0) ;;
      v <~ lift (getitem3 pts i j 1) ;;
      np_sample self u v) (seq 0 (m self))) (seq 0 (n self)).

(** The pixel coordinate of the grid node of index [k] on an axis of
    [count] nodes. *)
Definition grid_coord (extent : Q) (count k : nat) : Q :=
  np_floor ((extent - 1) / inject_Z (Z.of_nat count - 1)
            * inject_Z (Z.of_nat k)).

(** ** Proofs *)

Lemma Qlt_bool_iff (x y : Q) : Qlt_bool x y = true <-> x < y.
Proof.
  unfold Qlt_bool. rewrite negb_true_iff.
  destruct (Qle_bool y x) eqn:E.
  - apply Qle_bool_iff in E. split; [discriminate|]. intro H.
    exfalso. apply (Qlt_not_le _ _ H E).
  - split; [intros _|reflexivity].
    apply Qnot_le_lt. intro H. apply Qle_bool_iff in H. congruence.
Qed.

Example B_uniform_first_span :
  B 0 1 [0; 1; 2; 3; 4] (1 # 2)
  = Ok ((1 # 2) / 1 * 1 + (2 - (1 # 2)) / (2 - 1) * 0).
Proof. reflexivity. Qed.

(** *** Indexing *)

Lemma getitem_in_range (t : list Q) (i : Z) :
  (0 <= i < Z.of_nat (length t))%Z -> getitem t i = Ok (knot t i).
Proof.
  intros [H0 H1]. unfold getitem, knot.
  destruct (i <? 0)%Z eqn:E; [apply Z.ltb_lt in E; lia|].
  destruct (0 <=? i)%Z eqn:E0; [|apply Z.leb_gt in E0; lia].
  destruct (i <? Z.of_nat (length t))%Z eqn:E1; [|apply Z.ltb_ge in E1; lia].
  cbn [andb]. f_equal. apply nth_indep. lia.
Qed.

Lemma getitem_Ok_range (t : list Q) (i : Z) (q : Q) :
  getitem t i = Ok q ->
  (- Z.of_nat (length t) <= i < Z.of_nat (length t))%Z.
Proof.
  unfold getitem. destruct (i <? 0)%Z eqn:E.
  - apply Z.ltb_lt in E.
    destruct (0 <=? i + Z.of_nat (length t))%Z eqn:E0; simpl; [|discriminate].
    apply Z.leb_le in E0. intros _. lia.
  - apply Z.ltb_ge in E.
    destruct (0 <=? i)%Z; simpl; [|discriminate].
    destruct (i <? Z.of_nat (length t))%Z eqn:E1; [|discriminate].
    apply Z.ltb_lt in E1. intros _. lia.
Qed.

Lemma getitem_out_of_range (t : list Q) (i : Z) :
  (i < - Z.of_nat (length t) \/ Z.of_nat (length t) <= i)%Z ->
  getitem t i = Raise IndexError.
Proof.
  intros H. destruct (getitem t i) as [q|e] eqn:E.
  - apply getitem_Ok_range in E. lia.
  - unfold getitem in E.
    destruct (_ && _)%bool in E; [discriminate|]. congruence.
Qed.

Lemma getitem_error (t : list Q) (i : Z) (e : exn) :
  getitem t i = Raise e -> e = IndexError.
Proof.
  unfold getitem. destruct (_ && _)%bool; congruence.
Qed.

(** *** Fuel *)

Lemma B_fuel_mono (f : nat) :
  forall (f' : nat) (i k : Z) (t : list Q) (x : Q) (r : result Q),
    B_fuel f i k t x = Some r -> (f <= f')%nat -> B_fuel f' i k t x = Some r.
Proof.
  induction f as [|f IH]; intros f' i k t x r H Hle; [discriminate|].
  destruct f' as [|f']; [lia|].
  simpl in *. destruct (k =? 0)%Z; [exact H|].
  unfold fbind, lift in *.
  destruct (getitem t i) as [ti|]; [|exact H].
  destruct (getitem t (i + k)) as [tik|]; [|exact H].
  destruct (B_fuel f i (k - 1) t x) as [[c1|e1]|] eqn:E1; [| |discriminate].
  - rewrite (IH f' _ _ _ _ _ E1) by lia.
    destruct (degenerate (x - ti) (tik - ti)) as [a1 b1].
    destruct (getitem t (i + k + 1)) as [tik1|]; [|exact H].
    destruct (getitem t (i + 1)) as [ti1|]; [|exact H].
    destruct (B_fuel f (i + 1) (k - 1) t x) as [[c2|e2]|] eqn:E2;
      [| |discriminate].
    + rewrite (IH f' _ _ _ _ _ E2) by lia. exact H.
    + rewrite (IH f' _ _ _ _ _ E2) by lia. exact H.
  - rewrite (IH f' _ _ _ _ _ E1) by lia. exact H.
Qed.

Lemma B_fuel_nonneg_returns (k : nat) :
  forall (f : nat) (i : Z) (t : list Q) (x : Q),
    (k < f)%nat -> exists r, B_fuel f i (Z.of_nat k) t x = Some r.
Proof.
  induction k as [|k IH]; intros f i t x Hf.
  - destruct f as [|f]; [lia|]. simpl.
    unfold fbind, lift, fret.
    destruct (getitem t i) as [ti|]; [|eauto].
    destruct (Qle_bool ti x); [|eauto].
    destruct (getitem t (i + 1)) as [ti1|]; [|eauto].
    destruct (Qlt_bool x ti1); eauto.
  - destruct f as [|f]; [lia|].
    cbn [B_fuel].
    replace (Z.of_nat (S k) =? 0)%Z with false
      by (symmetry; apply Z.eqb_neq; lia).
    replace (Z.of_nat (S k) - 1)%Z with (Z.of_nat k) by lia.
    unfold fbind, lift, fret.
    destruct (getitem t i) as [ti|]; [|eauto].
    destruct (getitem t (i + Z.of_nat (S k))) as [tik|]; [|eauto].
    destruct (IH f i t x ltac:(lia)) as [[c1|e1] ->]; [|eauto].
    destruct (degenerate (x - ti) (tik - ti)) as [a1 b1].
    destruct (getitem t (i + Z.of_nat (S k) + 1)) as [tik1|]; [|eauto].
    destruct (getitem t (i + 1)) as [ti1|]; [|eauto].
    destruct (IH f (i + 1)%Z t x ltac:(lia)) as [[c2|e2] ->]; [|eauto].
    destruct (degenerate (tik1 - x) (tik1 - ti1)) as [a2 b2].
    destruct (truediv a1 b1); [|eauto].
    destruct (truediv a2 b2); eauto.
Qed.

(** For a negative [k] the recursion never reaches [k = 0]; it stops at the
    first index [i + k] that leaves the sequence. *)
Lemma B_fuel_negative_raises (f : nat) :
  forall (i k : Z) (t : list Q) (x : Q),
    (k < 0)%Z ->
    (Z.to_nat (i + k + Z.of_nat (length t) + 1) < f)%nat ->
    B_fuel f i k t x = Some (Raise IndexError).
Proof.
  induction f as [|f IH]; intros i k t x Hk Hf; [lia|].
  cbn [B_fuel].
  replace (k =? 0)%Z with false by (symmetry; apply Z.eqb_neq; lia).
  unfold fbind, lift.
  destruct (getitem t i) as [ti|e] eqn:Ei;
    [|apply getitem_error in Ei; subst; reflexivity].
  destruct (getitem t (i + k)) as [tik|e] eqn:Eik;
    [|apply getitem_error in Eik; subst; reflexivity].
  apply getitem_Ok_range in Eik.
  rewrite (IH i (k - 1)%Z t x) by lia. reflexivity.
Qed.

Lemma B_fuel_enough (i k : Z) (t : list Q) (x : Q) (f : nat) :
  (B_depth i k t <= f)%nat -> B_fuel f i k t x = Some (B i k t x).
Proof.
  intros Hf. unfold B.
  assert (H : exists r, B_fuel (B_depth i k t) i k t x = Some r).
  { unfold B_depth. destruct (Z_lt_le_dec k 0) as [Hk|Hk].
    - eexists. apply B_fuel_negative_raises; lia.
    - destruct (B_fuel_nonneg_returns (Z.to_nat k)
                  (S (Z.to_nat (Z.max k (i + k + Z.of_nat (length t) + 1))))
                  i t x) as [r Hr]; [lia|].
      rewrite Z2Nat.id in Hr by lia. eauto. }
  destruct H as [r Hr]. rewrite Hr.
  apply (B_fuel_mono _ _ _ _ _ _ _ Hr Hf).
Qed.

Lemma B_fuel_enough_nonneg (i k : Z) (t : list Q) (x : Q) (f : nat) :
  (0 <= k)%Z -> (Z.to_nat k < f)%nat -> B_fuel f i k t x = Some (B i k t x).
Proof.
  intros Hk Hf.
  destruct (B_fuel_nonneg_returns (Z.to_nat k) f i t x Hf) as [r Hr].
  rewrite Z2Nat.id in Hr by lia.
  rewrite Hr. f_equal.
  pose proof (B_fuel_enough i k t x (max f (B_depth i k t)) ltac:(lia)) as H.
  rewrite (B_fuel_mono _ _ _ _ _ _ _ Hr (Nat.le_max_l _ _)) in H.
  congruence.
Qed.

(** *** The two equations of the recursion *)

Lemma B_eq_base (i : Z) (t : list Q) (x : Q) : B i 0 t x = B_base i t x.
Proof.
  unfold B, B_depth, B_base. cbn [B_fuel Z.eqb].
  unfold fbind, lift, fret, bind.
  destruct (getitem t i) as [ti|]; [|reflexivity].
  destruct (Qle_bool ti x); [|reflexivity].
  destruct (getitem t (i + 1)) as [ti1|]; [|reflexivity].
  destruct (Qlt_bool x ti1); reflexivity.
Qed.

Lemma B_eq_step (i k : Z) (t : list Q) (x : Q) :
  (0 < k)%Z ->
  B i k t x = B_step i k t x (B i (k - 1) t x) (B (i + 1) (k - 1) t x).
Proof.
  intros Hk.
  pose proof (B_fuel_enough_nonneg i k t x (S (Z.to_nat k)) ltac:(lia)
                ltac:(lia)) as H.
  cbn [B_fuel] in H.
  replace (k =? 0)%Z with false in H by (symmetry; apply Z.eqb_neq; lia).
  rewrite !(B_fuel_enough_nonneg _ (k - 1)) in H by lia.
  unfold B_step, bind. unfold fbind, lift, fret in H.
  destruct (getitem t i) as [ti|]; [|congruence].
  destruct (getitem t (i + k)) as [tik|]; [|congruence].
  destruct (B i (k - 1) t x) as [c1|]; [|congruence].
  destruct (degenerate (x - ti) (tik - ti)) as [a1 b1].
  destruct (getitem t (i + k + 1)) as [tik1|]; [|congruence].
  destruct (getitem t (i + 1)) as [ti1|]; [|congruence].
  destruct (B (i + 1) (k - 1) t x) as [c2|]; [|congruence].
  destruct (degenerate (tik1 - x) (tik1 - ti1)) as [a2 b2].
  destruct (truediv a1 b1); [|congruence].
  destruct (truediv a2 b2); congruence.
Qed.

Lemma truediv_degenerate (terma termb : Q) :
  truediv (fst (degenerate terma termb)) (snd (degenerate terma termb))
  = Ok (fst (degenerate terma termb) / snd (degenerate terma termb)).
Proof.
  unfold degenerate. destruct (Qeq_bool termb 0) eqn:E; simpl.
  - reflexivity.
  - unfold truediv. rewrite E. reflexivity.
Qed.

(** With every knot in range, [__B__] returns the value of the total
    recursion. *)
Lemma B_in_range (t : list Q) (x : Q) (k : nat) :
  forall i : Z,
    (0 <= i)%Z -> (i + Z.of_nat k + 1 < Z.of_nat (length t))%Z ->
    B i (Z.of_nat k) t x = Ok (Bt (knot t) k i x).
Proof.
  induction k as [|k IH]; intros i Hi Hlen.
  - change (Z.of_nat 0) with 0%Z. rewrite B_eq_base. unfold B_base.
    rewrite !getitem_in_range by lia. cbn [bind Bt].
    destruct (Qle_bool (knot t i) x); [|reflexivity].
    destruct (Qlt_bool x (knot t (i + 1))); reflexivity.
  - rewrite B_eq_step by lia.
    replace (Z.of_nat (S k) - 1)%Z with (Z.of_nat k) by lia.
    rewrite !IH by lia. unfold B_step.
    rewrite !getitem_in_range by lia. cbn [bind Bt].
    pose proof (truediv_degenerate (x - knot t i)
                  (knot t (i + Z.of_nat (S k)) - knot t i)) as D1.
    pose proof (truediv_degenerate (knot t (i + Z.of_nat (S k) + 1) - x)
                  (knot t (i + Z.of_nat (S k) + 1) - knot t (i + 1))) as D2.
    destruct (degenerate (x - knot t i) _) as [a1 b1].
    destruct (degenerate (knot t (i + Z.of_nat (S k) + 1) - x) _) as [a2 b2].
    cbn [fst snd] in D1, D2. rewrite D1, D2. reflexivity.
Qed.

(** *** Claims on the basis function *)

(** C3: at order 0 the basis function is the indicator of the right-open
    interval from [t[i]] to [t[i+1]]: it returns 1 exactly when
    [t[i] <= x < t[i+1]] and 0 exactly when not. *)
Theorem B_order0_indicator (t : list Q) (i : Z) (x ti ti1 : Q) :
  getitem t i = Ok ti ->
  getitem t (i + 1) = Ok ti1 ->
  (B i 0 t x = Ok 1 <-> ti <= x /\ x < ti1) /\
  (B i 0 t x = Ok 0 <-> ~ (ti <= x /\ x < ti1)).
Proof.
  intros Hi Hi1. rewrite B_eq_base. unfold B_base.
  rewrite Hi. cbn [bind].
  destruct (Qle_bool ti x) eqn:Ele.
  - rewrite Hi1. cbn [bind]. apply Qle_bool_iff in Ele.
    destruct (Qlt_bool x ti1) eqn:Elt.
    + apply Qlt_bool_iff in Elt. split; split; intros H.
      * split; assumption.
      * reflexivity.
      * discriminate.
      * exfalso. apply H. split; assumption.
    + assert (Hn : ~ x < ti1).
      { intro H. apply Qlt_bool_iff in H. congruence. }
      split; split; intros H.
      * discriminate.
      * destruct H as [_ H]. contradiction.
      * intros [_ H']. contradiction.
      * reflexivity.
  - assert (Hn : ~ ti <= x).
    { intro H. apply Qle_bool_iff in H. congruence. }
    split; split; intros H.
    + discriminate.
    + destruct H as [H _]. contradiction.
    + intros [H' _]. contradiction.
    + reflexivity.
Qed.

Lemma B_order0_indicator_witness :
  getitem [0; 1; 2] 1 = Ok 1 /\ getitem [0; 1; 2] (1 + 1) = Ok 2 /\
  (B 1 0 [0; 1; 2] 1 = Ok 1 <-> 1 <= 1 /\ 1 < 2) /\
  (B 1 0 [0; 1; 2] 1 = Ok 0 <-> ~ (1 <= 1 /\ 1 < 2)).
Proof.
  split; [reflexivity|]. split; [reflexivity|].
  apply (B_order0_indicator [0; 1; 2] 1 1 1 2); reflexivity.
Defined.

(** C1: for [k > 0], with the four knots and the two recursive values at
    hand, a zero denominator turns its coefficient into 1, so that term is
    the recursive value itself; a denominator that is not zero keeps the
    Cox-de Boor coefficient. *)
Theorem B_recursive_case (t : list Q) (i k : Z) (x ti tik tik1 ti1 b1 b2 : Q) :
  (0 < k)%Z ->
  getitem t i = Ok ti ->
  getitem t (i + k) = Ok tik ->
  getitem t (i + k + 1) = Ok tik1 ->
  getitem t (i + 1) = Ok ti1 ->
  B i (k - 1) t x = Ok b1 ->
  B (i + 1) (k - 1) t x = Ok b2 ->
  (tik - ti == 0 -> degenerate (x - ti) (tik - ti) = (1, 1)) /\
  (tik1 - ti1 == 0 -> degenerate (tik1 - x) (tik1 - ti1) = (1, 1)) /\
  exists r : Q,
    B i k t x = Ok r /\
    (tik - ti == 0 -> tik1 - ti1 == 0 -> r == b1 + b2) /\
    (tik - ti == 0 -> ~ tik1 - ti1 == 0 ->
       r == b1 + (tik1 - x) / (tik1 - ti1) * b2) /\
    (~ tik - ti == 0 -> tik1 - ti1 == 0 ->
       r == (x - ti) / (tik - ti) * b1 + b2) /\
    (~ tik - ti == 0 -> ~ tik1 - ti1 == 0 ->
       r == (x - ti) / (tik - ti) * b1 + (tik1 - x) / (tik1 - ti1) * b2).
Proof.
  intros Hk Hi Hik Hik1 Hi1 Hb1 Hb2.
  split; [intros H; unfold degenerate; apply Qeq_bool_iff in H;
          rewrite H; reflexivity|].
  split; [intros H; unfold degenerate; apply Qeq_bool_iff in H;
          rewrite H; reflexivity|].
  rewrite B_eq_step by assumption. unfold B_step.
  rewrite Hi, Hik, Hik1, Hi1, Hb1, Hb2. cbn [bind].
  pose proof (truediv_degenerate (x - ti) (tik - ti)) as D1.
  pose proof (truediv_degenerate (tik1 - x) (tik1 - ti1)) as D2.
  unfold degenerate in *.
  destruct (Qeq_bool (tik - ti) 0) eqn:E1;
    destruct (Qeq_bool (tik1 - ti1) 0) eqn:E2;
    cbn [fst snd] in D1, D2; cbn [bind];
    eexists; (split; [rewrite ?D1; cbn [bind]; rewrite ?D2; reflexivity|]);
    [apply Qeq_bool_iff in E1; apply Qeq_bool_iff in E2
    |apply Qeq_bool_iff in E1; apply Qeq_bool_neq in E2
    |apply Qeq_bool_neq in E1; apply Qeq_bool_iff in E2
    |apply Qeq_bool_neq in E1; apply Qeq_bool_neq in E2];
    (split; [|split; [|split]]); intros H1 H2; try contradiction;
    try reflexivity; field; auto.
Qed.

Lemma B_recursive_case_witness :
  (0 - 0 == 0 -> degenerate ((1 # 2) - 0) (0 - 0) = (1, 1)) /\
  (1 - 0 == 0 -> degenerate (1 - (1 # 2)) (1 - 0) = (1, 1)) /\
  exists r : Q,
    B 0 1 [0; 0; 1; 2] (1 # 2) = Ok r /\
    (0 - 0 == 0 -> 1 - 0 == 0 -> r == 0 + 1) /\
    (0 - 0 == 0 -> ~ 1 - 0 == 0 -> r == 0 + (1 - (1 # 2)) / (1 - 0) * 1) /\
    (~ 0 - 0 == 0 -> 1 - 0 == 0 -> r == ((1 # 2) - 0) / (0 - 0) * 0 + 1) /\
    (~ 0 - 0 == 0 -> ~ 1 - 0 == 0 ->
       r == ((1 # 2) - 0) / (0 - 0) * 0 + (1 - (1 # 2)) / (1 - 0) * 1).
Proof.
  apply (B_recursive_case [0; 0; 1; 2] 0 1 (1 # 2) 0 0 1 0 0 1);
    [lia | reflexivity ..].
Defined.

(** C9: for every [k >= 0] the recursion of [__B__] ends: [k + 1] levels of
    recursion are enough, whatever the index, the knots and the parameter,
    more fuel changes nothing, and with every knot in range the call
    returns a number. *)
Theorem B_terminates (i k : Z) (t : list Q) (x : Q) :
  (0 <= k)%Z ->
  (exists r : result Q,
     forall fuel : nat, (Z.to_nat k < fuel)%nat ->
       B_fuel fuel i k t x = Some r) /\
  ((0 <= i)%Z -> (i + k + 1 < Z.of_nat (length t))%Z ->
   exists q : Q, forall fuel : nat, (Z.to_nat k < fuel)%nat ->
     B_fuel fuel i k t x = Some (Ok q)).
Proof.
  intros Hk. split.
  - exists (B i k t x). intros fuel Hf.
    apply B_fuel_enough_nonneg; assumption.
  - intros Hi Hlen. exists (Bt (knot t) (Z.to_nat k) i x). intros fuel Hf.
    rewrite B_fuel_enough_nonneg by assumption. f_equal.
    rewrite <- (Z2Nat.id k) at 1 by assumption.
    apply B_in_range; lia.
Qed.

Lemma B_terminates_witness :
  (exists r : result Q,
     forall fuel : nat, (Z.to_nat 2 < fuel)%nat ->
       B_fuel fuel 0 2 [0; 0; 0; 1; 1; 1] (1 # 2) = Some r) /\
  ((0 <= 0)%Z -> (0 + 2 + 1 < Z.of_nat (length [0; 0; 0; 1; 1; 1]))%Z ->
   exists q : Q, forall fuel : nat, (Z.to_nat 2 < fuel)%nat ->
     B_fuel fuel 0 2 [0; 0; 0; 1; 1; 1] (1 # 2) = Some (Ok q)).
Proof.
  apply (B_terminates 0 2 [0; 0; 0; 1; 1; 1] (1 # 2)). lia.
Defined.

(** *** The recursion over knots that never decrease *)

Lemma Qsum_ext (count : nat) (f g : nat -> Q) :
  (forall d : nat, (d < count)%nat -> f d == g d) ->
  Qsum count f == Qsum count g.
Proof.
  induction count as [|c IH]; intros H; cbn [Qsum]; [reflexivity|].
  rewrite IH by (intros; apply H; lia). rewrite (H c) by lia. reflexivity.
Qed.

Lemma Qsum_zero (count : nat) (f : nat -> Q) :
  (forall d : nat, (d < count)%nat -> f d == 0) -> Qsum count f == 0.
Proof.
  induction count as [|c IH]; intros H; cbn [Qsum]; [reflexivity|].
  rewrite IH by (intros; apply H; lia). rewrite (H c) by lia. reflexivity.
Qed.

Lemma degenerate_coef (terma termb : Q) :
  fst (degenerate terma termb) / snd (degenerate terma termb)
  == coef terma termb.
Proof.
  unfold degenerate, coef. destruct (Qeq_bool termb 0); cbn [fst snd].
  - reflexivity.
  - reflexivity.
Qed.

Section Knots.

Variable kn : Z -> Q.
Variable x : Q.
Hypothesis kn_mono : forall j : Z, kn j <= kn (j + 1)%Z.

Lemma kn_le (a b : Z) : (a <= b)%Z -> kn a <= kn b.
Proof.
  intros Hab. replace b with (a + Z.of_nat (Z.to_nat (b - a)))%Z by lia.
  induction (Z.to_nat (b - a)) as [|d IH].
  - replace (a + Z.of_nat 0)%Z with a by lia. apply Qle_refl.
  - replace (a + Z.of_nat (S d))%Z with (a + Z.of_nat d + 1)%Z by lia.
    eapply Qle_trans; [exact IH|apply kn_mono].
Qed.

Lemma Bt_step (k : nat) (i : Z) :
  Bt kn (S k) i x
  == w1 kn x k i * Bt kn k i x + w2 kn x k i * Bt kn k (i + 1)%Z x.
Proof.
  cbn [Bt]. unfold w1, w2.
  rewrite <- !degenerate_coef.
  destruct (degenerate (x - kn i) _) as [a1 b1].
  destruct (degenerate (kn (i + Z.of_nat (S k) + 1)%Z - x) _) as [a2 b2].
  reflexivity.
Qed.

(** The support of a basis function: it vanishes before [kn i]. *)
Lemma Bt_zero_left (k : nat) :
  forall i : Z, x < kn i -> Bt kn k i x == 0.
Proof.
  induction k as [|k IH]; intros i Hx.
  - cbn [Bt]. destruct (Qle_bool (kn i) x) eqn:E; [|reflexivity].
    apply Qle_bool_iff in E. exfalso. apply (Qlt_not_le _ _ Hx E).
  - rewrite Bt_step. rewrite (IH i Hx).
    rewrite (IH (i + 1)%Z)
      by (eapply Qlt_le_trans; [exact Hx|apply kn_mono]).
    ring.
Qed.

(** It vanishes from [kn (i + k + 1)] on. *)
Lemma Bt_zero_right (k : nat) :
  forall i : Z, kn (i + Z.of_nat k + 1)%Z <= x -> Bt kn k i x == 0.
Proof.
  induction k as [|k IH]; intros i Hx.
  - cbn [Bt]. replace (i + Z.of_nat 0 + 1)%Z with (i + 1)%Z in Hx by lia.
    destruct (Qle_bool (kn i) x); [|reflexivity].
    destruct (Qlt_bool x (kn (i + 1)%Z)) eqn:E; [|reflexivity].
    apply Qlt_bool_iff in E. exfalso. apply (Qlt_not_le _ _ E Hx).
  - rewrite Bt_step. rewrite (IH i).
    + rewrite (IH (i + 1)%Z).
      * ring.
      * replace (i + 1 + Z.of_nat k + 1)%Z
          with (i + Z.of_nat (S k) + 1)%Z by lia.
        exact Hx.
    + eapply Qle_trans; [|exact Hx]. apply kn_le. lia.
Qed.

Lemma coef_nonneg (terma termb : Q) :
  0 <= terma -> 0 <= termb -> 0 <= coef terma termb.
Proof.
  intros Ha Hb. unfold coef. destruct (Qeq_bool termb 0) eqn:E.
  - discriminate.
  - apply Qeq_bool_neq in E.
    apply Qle_shift_div_l.
    + apply Qle_lteq in Hb. destruct Hb as [Hb|Hb]; [exact Hb|].
      exfalso. apply E. symmetry. exact Hb.
    + rewrite Qmult_0_l. exact Ha.
Qed.

(** A basis function is never negative. *)
Lemma Bt_nonneg (k : nat) : forall i : Z, 0 <= Bt kn k i x.
Proof.
  induction k as [|k IH]; intros i.
  - cbn [Bt]. destruct (Qle_bool (kn i) x); [|apply Qle_refl].
    destruct (Qlt_bool x (kn (i + 1)%Z)); [discriminate|apply Qle_refl].
  - rewrite Bt_step.
    assert (H1 : 0 <= w1 kn x k i * Bt kn k i x).
    { destruct (Qlt_le_dec x (kn i)) as [Hx|Hx].
      - rewrite (Bt_zero_left k i Hx). rewrite Qmult_0_r. apply Qle_refl.
      - apply Qmult_le_0_compat; [|apply IH].
        apply coef_nonneg.
        + lra.
        + pose proof (kn_le i (i + Z.of_nat (S k))%Z ltac:(lia)). lra. }
    assert (H2 : 0 <= w2 kn x k i * Bt kn k (i + 1)%Z x).
    { destruct (Qlt_le_dec x (kn (i + Z.of_nat (S k) + 1)%Z)) as [Hx|Hx].
      - apply Qmult_le_0_compat; [|apply IH].
        apply coef_nonneg.
        + lra.
        + pose proof (kn_le (i + 1)%Z (i + Z.of_nat (S k) + 1)%Z
                        ltac:(lia)). lra.
      - rewrite (Bt_zero_right k (i + 1)%Z).
        + rewrite Qmult_0_r. apply Qle_refl.
        + replace (i + 1 + Z.of_nat k + 1)%Z
            with (i + Z.of_nat (S k) + 1)%Z by lia.
          exact Hx. }
    lra.
Qed.

(** The two coefficients carried by one lower-order basis function add
    up to 1 wherever that function does not vanish. *)
Lemma coef_pair (k : nat) (i : Z) :
  (w2 kn x k i + w1 kn x k (i + 1)%Z) * Bt kn k (i + 1)%Z x
  == Bt kn k (i + 1)%Z x.
Proof.
  unfold w1, w2.
  replace (i + 1 + Z.of_nat (S k))%Z with (i + Z.of_nat (S k) + 1)%Z by lia.
  set (hi := kn (i + Z.of_nat (S k) + 1)%Z).
  set (lo := kn (i + 1)%Z).
  unfold coef. destruct (Qeq_bool (hi - lo) 0) eqn:E.
  - apply Qeq_bool_iff in E.
    assert (Hz : Bt kn k (i + 1)%Z x == 0).
    { destruct (Qlt_le_dec x lo) as [Hx|Hx].
      - apply Bt_zero_left. exact Hx.
      - apply Bt_zero_right.
        replace (i + 1 + Z.of_nat k + 1)%Z
          with (i + Z.of_nat (S k) + 1)%Z by lia.
        fold hi. lra. }
    rewrite Hz. ring.
  - apply Qeq_bool_neq in E. field. exact E.
Qed.

(** The sum of consecutive basis functions of order [k + 1], in terms of
    those of order [k]. *)
Lemma Bt_sum_step (k : nat) (lo : Z) (count : nat) :
  Qsum (S count) (fun d => Bt kn (S k) (lo + Z.of_nat d)%Z x)
  == w1 kn x k lo * Bt kn k lo x
     + Qsum count (fun d => Bt kn k (lo + 1 + Z.of_nat d)%Z x)
     + w2 kn x k (lo + Z.of_nat count)%Z
       * Bt kn k (lo + Z.of_nat count + 1)%Z x.
Proof.
  induction count as [|c IH].
  - cbn [Qsum]. rewrite Bt_step.
    replace (lo + Z.of_nat 0)%Z with lo by lia. ring.
  - change (Qsum (S (S c)) (fun d => Bt kn (S k) (lo + Z.of_nat d)%Z x))
      with (Qsum (S c) (fun d => Bt kn (S k) (lo + Z.of_nat d)%Z x)
            + Bt kn (S k) (lo + Z.of_nat (S c))%Z x).
    rewrite IH. cbn [Qsum]. rewrite Bt_step.
    replace (lo + Z.of_nat (S c))%Z with (lo + Z.of_nat c + 1)%Z by lia.
    replace (lo + 1 + Z.of_nat c)%Z with (lo + Z.of_nat c + 1)%Z by lia.
    pose proof (coef_pair k (lo + Z.of_nat c)%Z) as P.
    set (b := Bt kn k (lo + Z.of_nat c + 1)%Z x) in *.
    set (p := w2 kn x k (lo + Z.of_nat c)%Z) in *.
    set (q := w1 kn x k (lo + Z.of_nat c + 1)%Z) in *.
    assert (P' : p * b + q * b == b) by (rewrite <- P at 3; ring).
    lra.
Qed.

(** The order-0 functions are the indicators of consecutive intervals. *)
Lemma Bt_partition_0 (lo : Z) (count : nat) :
  kn lo <= x -> x < kn (lo + Z.of_nat count)%Z ->
  Qsum count (fun d => Bt kn 0 (lo + Z.of_nat d)%Z x) == 1.
Proof.
  induction count as [|c IH]; intros Hlo Hhi.
  - replace (lo + Z.of_nat 0)%Z with lo in Hhi by lia.
    exfalso. apply (Qlt_not_le _ _ Hhi Hlo).
  - cbn [Qsum].
    destruct (Qlt_le_dec x (kn (lo + Z.of_nat c)%Z)) as [Hx|Hx].
    + rewrite (IH Hlo Hx). rewrite (Bt_zero_left 0 _ Hx). ring.
    + rewrite Qsum_zero.
      * cbn [Bt].
        replace (lo + Z.of_nat c + 1)%Z with (lo + Z.of_nat (S c))%Z by lia.
        apply Qle_bool_iff in Hx. rewrite Hx.
        apply Qlt_bool_iff in Hhi. rewrite Hhi. ring.
      * intros d Hd. apply Bt_zero_right.
        eapply Qle_trans; [|exact Hx]. apply kn_le. lia.
Qed.

(** Partition of unity: on the span from [kn (lo + k)] to
    [kn (lo + count)] the [count] basis functions of order [k] that start
    at [lo] add up to 1. *)
Lemma Bt_partition (k : nat) :
  forall (lo : Z) (count : nat),
    kn (lo + Z.of_nat k)%Z <= x -> x < kn (lo + Z.of_nat count)%Z ->
    Qsum count (fun d => Bt kn k (lo + Z.of_nat d)%Z x) == 1.
Proof.
  induction k as [|k IH]; intros lo count Hlo Hhi.
  - apply Bt_partition_0; [|exact Hhi].
    replace (lo + Z.of_nat 0)%Z with lo in Hlo by lia. exact Hlo.
  - destruct count as [|c].
    + exfalso. apply (Qlt_not_le _ _ Hhi).
      eapply Qle_trans; [|exact Hlo]. apply kn_le. lia.
    + rewrite Bt_sum_step.
      rewrite (Bt_zero_right k lo).
      * rewrite (Bt_zero_left k (lo + Z.of_nat c + 1)%Z).
        -- rewrite (IH (lo + 1)%Z c).
           ++ ring.
           ++ replace (lo + 1 + Z.of_nat k)%Z
                with (lo + Z.of_nat (S k))%Z by lia.
              exact Hlo.
           ++ replace (lo + 1 + Z.of_nat c)%Z
                with (lo + Z.of_nat (S c))%Z by lia.
              exact Hhi.
        -- replace (lo + Z.of_nat c + 1)%Z
             with (lo + Z.of_nat (S c))%Z by lia.
           exact Hhi.
      * replace (lo + Z.of_nat k + 1)%Z with (lo + Z.of_nat (S k))%Z by lia.
        exact Hlo.
Qed.

End Knots.

(** *** Knot vectors as lists *)

Lemma nth_last_default (t : list Q) (d : Q) :
  nth (pred (length t)) t d = last t d.
Proof.
  induction t as [|q t IH]; [reflexivity|].
  destruct t as [|q' t]; [reflexivity|].
  change (nth (pred (length (q' :: t))) (q' :: t) d = last (q' :: t) d).
  exact IH.
Qed.

Lemma last_cons_indep (t : list Q) (q d d' : Q) :
  last (q :: t) d = last (q :: t) d'.
Proof.
  revert q. induction t as [|q' t IH]; intros q; [reflexivity|].
  change (last (q' :: t) d = last (q' :: t) d'). apply IH.
Qed.

Lemma knot_nth (t : list Q) (j : nat) :
  (j < length t)%nat -> knot t (Z.of_nat j) = nth j t 0.
Proof.
  intros Hj. unfold knot. rewrite Nat2Z.id. apply nth_indep. exact Hj.
Qed.

Lemma knot_mono (t : list Q) :
  non_decreasing t -> forall j : Z, knot t j <= knot t (j + 1)%Z.
Proof.
  intros Ht j. unfold knot.
  destruct (Z_lt_le_dec j 0) as [Hj|Hj].
  - replace (Z.to_nat j) with 0%nat by lia.
    replace (Z.to_nat (j + 1)) with 0%nat by lia. apply Qle_refl.
  - replace (Z.to_nat (j + 1)) with (S (Z.to_nat j)) by lia.
    set (c := Z.to_nat j).
    destruct (Nat.lt_ge_cases (S c) (length t)) as [Hc|Hc].
    + rewrite (nth_indep t _ 0) by lia.
      rewrite (nth_indep t (last t 0) 0) by lia. apply Ht. exact Hc.
    + rewrite (nth_overflow t (last t 0) Hc).
      destruct (Nat.eq_dec (S c) (length t)) as [He|He].
      * replace c with (pred (length t)) by lia.
        rewrite nth_last_default.
        destruct t as [|q t]; [apply Qle_refl|].
        rewrite (last_cons_indep t q (last (q :: t) 0) 0). apply Qle_refl.
      * rewrite nth_overflow by lia. apply Qle_refl.
Qed.

(** *** Rows of basis values *)

Lemma mapM_Ok {A B : Type} (f : A -> result B) (g : A -> B) (l : list A) :
  (forall x : A, In x l -> f x = Ok (g x)) -> mapM f l = Ok (map g l).
Proof.
  induction l as [|x l IH]; intros H; [reflexivity|].
  cbn [mapM map]. rewrite (H x) by (left; reflexivity). cbn [bind].
  rewrite IH by (intros; apply H; right; assumption). reflexivity.
Qed.

Lemma mapM_inv {A B : Type} (f : A -> result B) (l : list A) :
  forall ys : list B,
    mapM f l = Ok ys ->
    length ys = length l /\
    forall (i : nat) (da : A) (db : B),
      (i < length l)%nat -> f (nth i l da) = Ok (nth i ys db).
Proof.
  induction l as [|x l IH]; intros ys H.
  - injection H as <-. split; [reflexivity|]. cbn [length]. lia.
  - cbn [mapM] in H. destruct (f x) as [y|e] eqn:Ex; [|discriminate].
    cbn [bind] in H. destruct (mapM f l) as [ys'|e]; [|discriminate].
    injection H as <-. destruct (IH ys' eq_refl) as [Hlen Hnth].
    split; [cbn [length]; lia|].
    intros [|i] da db Hi; [exact Ex|]. cbn [nth]. apply Hnth.
    cbn [length] in Hi. lia.
Qed.

Lemma mapM_Raise {A B : Type} (f : A -> result B) (l : list A) (e : exn) :
  mapM f l = Raise e -> exists x : A, In x l /\ f x = Raise e.
Proof.
  induction l as [|x l IH]; intros H; [discriminate|].
  cbn [mapM] in H. destruct (f x) as [y|e'] eqn:Ex.
  - cbn [bind] in H. destruct (mapM f l) as [ys|e'']; [discriminate|].
    injection H as <-. destruct (IH eq_refl) as [x' [Hin Hx']].
    exists x'. split; [right; exact Hin|exact Hx'].
  - injection H as <-. exists x. split; [left; reflexivity|exact Ex].
Qed.

Lemma basis_row_Ok (count order : nat) (t : list Q) (x : Q) (g : nat -> Q) :
  (forall i : nat, (i < count)%nat ->
     B (Z.of_nat i) (Z.of_nat order) t x = Ok (g i)) ->
  basis_row count order t x = Ok (map g (seq 0 count)).
Proof.
  intros H. unfold basis_row. apply mapM_Ok.
  intros i Hi. apply in_seq in Hi. apply H. lia.
Qed.

Lemma basis_row_inv (count order : nat) (t : list Q) (x : Q) (row : list Q) :
  basis_row count order t x = Ok row ->
  length row = count /\
  forall i : nat, (i < count)%nat ->
    B (Z.of_nat i) (Z.of_nat order) t x = Ok (nth i row 0).
Proof.
  intros H. unfold basis_row in H. apply mapM_inv in H.
  destruct H as [Hlen Hnth]. rewrite length_seq in Hlen, Hnth.
  split; [exact Hlen|]. intros i Hi.
  specialize (Hnth i 0%nat 0 Hi). rewrite seq_nth in Hnth by exact Hi.
  exact Hnth.
Qed.

Lemma basis_row_in_range (count order : nat) (t : list Q) (x : Q) :
  (count + order < length t)%nat ->
  basis_row count order t x
  = Ok (map (fun i : nat => Bt (knot t) order (Z.of_nat i) x) (seq 0 count)).
Proof.
  intros Hlen. apply basis_row_Ok. intros i Hi. apply B_in_range; lia.
Qed.

Lemma fold_right_Qplus_acc (l : list Q) (q : Q) :
  fold_right Qplus q l == fold_right Qplus 0 l + q.
Proof.
  induction l as [|y l IH]; cbn [fold_right]; [ring|]. rewrite IH. ring.
Qed.

Lemma fold_right_Qsum (g : nat -> Q) (count : nat) :
  fold_right Qplus 0 (map g (seq 0 count)) == Qsum count g.
Proof.
  induction count as [|c IH]; [reflexivity|].
  rewrite seq_S, map_app, fold_right_app. cbn [map fold_right Qsum Nat.add].
  rewrite fold_right_Qplus_acc, IH. ring.
Qed.

(** *** Partition of unity *)

(** C8, as amended: for a non-decreasing knot vector that holds the knots
    the [count] basis functions of order [order] read, and for every [x]
    with [t[order] <= x < t[count]], the basis functions add up to 1. *)
Theorem partition_of_unity (t : list Q) (count order : nat) (x : Q) :
  non_decreasing t ->
  (count + order < length t)%nat ->
  nth order t 0 <= x ->
  x < nth count t 0 ->
  exists s : Q, basis_sum count order t x = Ok s /\ s == 1.
Proof.
  intros Ht Hlen Hlo Hhi. unfold basis_sum.
  rewrite basis_row_in_range by exact Hlen. cbn [bind].
  eexists. split; [reflexivity|].
  rewrite fold_right_Qsum.
  rewrite (Qsum_ext count _
             (fun d => Bt (knot t) order (0 + Z.of_nat d)%Z x))
    by (intros; reflexivity).
  apply Bt_partition.
  - apply knot_mono. exact Ht.
  - rewrite Z.add_0_l, knot_nth by lia. exact Hlo.
  - rewrite Z.add_0_l, knot_nth by lia. exact Hhi.
Qed.

Lemma non_decreasingb_sound (t : list Q) :
  non_decreasingb t = true -> non_decreasing t.
Proof.
  induction t as [|q t IH]; intros H j Hj; [cbn [length] in Hj; lia|].
  destruct t as [|q' t]; [cbn [length] in Hj; lia|].
  cbn [non_decreasingb] in H. apply andb_true_iff in H. destruct H as [H1 H2].
  destruct j as [|j].
  - apply Qle_bool_iff. exact H1.
  - change (nth j (q' :: t) 0 <= nth (S j) (q' :: t) 0).
    apply IH; [exact H2|]. cbn [length] in *. lia.
Qed.

Lemma partition_of_unity_witness :
  exists s : Q, basis_sum 3 2 [0; 0; 0; 1 # 2; 1; 1; 1] (1 # 4) = Ok s /\ s == 1.
Proof.
  apply (partition_of_unity [0; 0; 0; 1 # 2; 1; 1; 1] 3 2 (1 # 4)).
  - apply non_decreasingb_sound. reflexivity.
  - cbn [length]. lia.
  - cbn [nth]. lra.
  - cbn [nth]. lra.
Defined.

(** C8, as stated, fails: with the clamped knots of [open_uniform(2, 1)],
    which do not decrease and have [count + order + 2] entries, the
    parameter 3/4 lies strictly between the first and the last knot, and the
    two basis functions add up to 1/2. *)
Lemma partition_of_unity_counterexample :
  non_decreasing (spec_open_uniform 2 1) /\
  length (spec_open_uniform 2 1) = (2 + 1 + 2)%nat /\
  nth 0 (spec_open_uniform 2 1) 0 < 3 # 4 /\
  3 # 4 < last (spec_open_uniform 2 1) 0 /\
  exists s : Q,
    basis_sum 2 1 (spec_open_uniform 2 1) (3 # 4) = Ok s /\ s == 1 # 2 /\
    ~ s == 1.
Proof.
  split; [apply non_decreasingb_sound; reflexivity|].
  split; [reflexivity|].
  split; [reflexivity|].
  split; [reflexivity|].
  eexists. split; [vm_compute; reflexivity|].
  split; [reflexivity|discriminate].
Qed.

(** *** The constructor *)

Lemma is_two_tuple (d : py_seq) :
  (is_tuple d && (length (seq_items d) =? 2)%nat)%bool = true <-> two_tuple d.
Proof.
  split.
  - intros H. apply andb_true_iff in H. destruct H as [Ht Hl].
    apply Nat.eqb_eq in Hl. destruct d as [l|l]; [|discriminate].
    cbn [seq_items] in Hl.
    destruct l as [|w [|h [|q l]]]; try discriminate.
    exists w, h. reflexivity.
  - intros (w & h & ->). reflexivity.
Qed.

Lemma is_recognised (knot_method : string) :
  existsb (String.eqb knot_method) ["open_uniform"%string; "uniform"%string]
  = true <-> recognised knot_method.
Proof.
  cbn [existsb]. rewrite !orb_true_iff, !String.eqb_eq. unfold recognised.
  split.
  - intros [H|[H|H]]; [left; exact H|right; exact H|discriminate].
  - intros [H|H]; [left; exact H|right; left; exact H].
Qed.

Lemma is_rank3_depth3_shape (control_points : py_array) :
  is_rank3_depth3 control_points = true <->
  exists (cp : ndarray) (n m : nat),
    control_points = Ndarray cp /\ shape cp = [n; m; 3%nat].
Proof.
  split.
  - destruct control_points as [cp|]; [|discriminate].
    cbn [is_rank3_depth3]. intros H. apply andb_true_iff in H.
    destruct H as [Hl Hd]. apply Nat.eqb_eq in Hl, Hd.
    destruct (shape cp) as [|n0 [|m0 [|d [|d' l]]]] eqn:Es; try discriminate.
    cbn [last] in Hd. subst d. exists cp, n0, m0. split; [reflexivity|exact Es].
  - intros (cp & n0 & m0 & -> & Hs). cbn [is_rank3_depth3]. rewrite Hs.
    reflexivity.
Qed.

(** The constructor either raises [AssertionError], when a condition of
    [config_ok] is broken, or returns the model. *)
Lemma init_cases (kg : KnotVectorProvider)
    (image_dimensions grid_dimensions : py_seq) (control_points : py_array)
    (ord : nat) (knot_method : string) (minb end_divergence : Q) :
  (~ config_ok image_dimensions grid_dimensions control_points ord
       knot_method /\
   init kg image_dimensions grid_dimensions control_points ord knot_method
        minb end_divergence = Raise AssertionError) \/
  (config_ok image_dimensions grid_dimensions control_points ord
     knot_method /\
   exists self : CentralModel,
     init kg image_dimensions grid_dimensions control_points ord knot_method
          minb end_divergence = Ok self /\
     constructed kg self /\
     ord = order self /\
     minb = min_basis_value self /\
     image_dimensions = PyTuple [image_width self; image_height self] /\
     grid_dimensions = PyTuple [grid_width self; grid_height self] /\
     control_points = Ndarray (a self)).
Proof.
  unfold init.
  destruct (existsb _ _) eqn:Em; cbn [py_assert bind];
    [apply is_recognised in Em
    |left; split; [|reflexivity]; intros (H & _);
     apply is_recognised in H; congruence].
  destruct (is_tuple image_dimensions && _)%bool eqn:Ei; cbn [py_assert bind];
    [apply is_two_tuple in Ei
    |left; split; [|reflexivity]; intros (_ & H & _);
     apply is_two_tuple in H; congruence].
  destruct (is_tuple grid_dimensions && _)%bool eqn:Eg; cbn [py_assert bind];
    [apply is_two_tuple in Eg
    |left; split; [|reflexivity]; intros (_ & _ & H & _);
     apply is_two_tuple in H; congruence].
  destruct (is_rank3_depth3 control_points) eqn:Ec; cbn [py_assert bind].
  2:{ left; split; [|reflexivity].
      intros (_ & _ & _ & cp & n0 & m0 & Hcp & Hs & _).
      assert (H : is_rank3_depth3 control_points = true)
        by (apply is_rank3_depth3_shape; eauto).
      congruence. }
  apply is_rank3_depth3_shape in Ec. destruct Ec as (cp & n0 & m0 & -> & Hs).
  unfold shape_getitem. rewrite Hs. cbn [nth_error bind].
  destruct ((ord <? n0)%nat && (ord <? m0)%nat)%bool eqn:Eo;
    cbn [py_assert bind].
  2:{ left; split; [|reflexivity].
      intros (_ & _ & _ & cp' & n1 & m1 & Hcp & Hs' & Hlt).
      injection Hcp as <-. rewrite Hs in Hs'. injection Hs' as <- <-.
      apply andb_false_iff in Eo.
      destruct Eo as [Eo|Eo]; apply Nat.ltb_ge in Eo; lia. }
  apply andb_true_iff in Eo. destruct Eo as [Hn Hm].
  apply Nat.ltb_lt in Hn, Hm.
  destruct Ei as (iw & ih & ->). destruct Eg as (gw & gh & ->).
  cbn [seq_getitem seq_items nth_error bind].
  right. split.
  { split; [exact Em|]. split; [exists iw, ih; reflexivity|].
    split; [exists gw, gh; reflexivity|].
    exists cp, n0, m0. repeat split; try assumption. lia. }
  eexists. split; [reflexivity|].
  cbn [a n m order th tv min_basis_value image_width
       image_height grid_width grid_height].
  split; [|repeat split].
  split; cbn [a n m order th tv]; try assumption.
  destruct Em as [-> | ->]; cbn [String.eqb Ascii.eqb Bool.eqb fst snd];
    [left|right]; split; reflexivity.
Qed.

(** C7: construction raises the assertion error exactly when the knot
    method is not recognised, or a dimension argument is not a 2-tuple, or
    the control points are not a rank-3 array of depth 3, or the order is
    not below both grid counts; otherwise it returns a model. *)
Theorem init_fails_iff (kg : KnotVectorProvider)
    (image_dimensions grid_dimensions : py_seq) (control_points : py_array)
    (order : nat) (knot_method : string) (min_basis_value end_divergence : Q) :
  (init kg image_dimensions grid_dimensions control_points order knot_method
        min_basis_value end_divergence = Raise AssertionError
   <-> ~ config_ok image_dimensions grid_dimensions control_points order
         knot_method) /\
  ((exists self : CentralModel,
      init kg image_dimensions grid_dimensions control_points order
           knot_method min_basis_value end_divergence = Ok self)
   <-> config_ok image_dimensions grid_dimensions control_points order
         knot_method).
Proof.
  destruct (init_cases kg image_dimensions grid_dimensions control_points
              order knot_method min_basis_value end_divergence)
    as [[Hn He]|[Hc (self & He & _)]]; rewrite He.
  - split; split; intros H.
    + exact Hn.
    + reflexivity.
    + destruct H as [self Hs]. discriminate.
    + contradiction.
  - split; split; intros H.
    + discriminate.
    + contradiction.
    + exact Hc.
    + exists self. reflexivity.
Qed.

(** *** Vectors *)

Lemma veq_refl (s : vec3) : veq s s.
Proof. destruct s as [[s0 s1] s2]. cbn. repeat split; reflexivity. Qed.

Lemma veq_sym (s r : vec3) : veq s r -> veq r s.
Proof.
  destruct s as [[s0 s1] s2], r as [[r0 r1] r2]. cbn.
  intros (H0 & H1 & H2). repeat split; symmetry; assumption.
Qed.

Lemma veq_trans (s r q : vec3) : veq s r -> veq r q -> veq s q.
Proof.
  destruct s as [[s0 s1] s2], r as [[r0 r1] r2], q as [[q0 q1] q2]. cbn.
  intros (H0 & H1 & H2) (K0 & K1 & K2).
  repeat split; etransitivity; eassumption.
Qed.

Lemma vadd_compat (s s' r r' : vec3) :
  veq s s' -> veq r r' -> veq (vadd s r) (vadd s' r').
Proof.
  destruct s as [[s0 s1] s2], r as [[r0 r1] r2],
           s' as [[s0' s1'] s2'], r' as [[r0' r1'] r2']. cbn.
  intros (H0 & H1 & H2) (K0 & K1 & K2).
  rewrite H0, H1, H2, K0, K1, K2. repeat split; reflexivity.
Qed.

Lemma vadd_zero_r (s : vec3) : veq (vadd s vzero) s.
Proof. destruct s as [[s0 s1] s2]. cbn. repeat split; ring. Qed.

Lemma vadd_assoc (s r q : vec3) : veq (vadd (vadd s r) q) (vadd s (vadd r q)).
Proof.
  destruct s as [[s0 s1] s2], r as [[r0 r1] r2], q as [[q0 q1] q2]. cbn.
  repeat split; ring.
Qed.

Lemma vscale_zero (s : vec3) (c : Q) : c == 0 -> veq (vscale s c) vzero.
Proof.
  destruct s as [[s0 s1] s2]. cbn. intros ->. repeat split; ring.
Qed.

Lemma vsum_ext (count : nat) (f g : nat -> vec3) :
  (forall i : nat, (i < count)%nat -> veq (f i) (g i)) ->
  veq (vsum count f) (vsum count g).
Proof.
  induction count as [|c IH]; intros H; cbn [vsum]; [apply veq_refl|].
  apply vadd_compat; [apply IH; intros; apply H; lia|apply H; lia].
Qed.

Lemma vsum_zero (count : nat) (f : nat -> vec3) :
  (forall i : nat, (i < count)%nat -> veq (f i) vzero) ->
  veq (vsum count f) vzero.
Proof.
  induction count as [|c IH]; intros H; cbn [vsum]; [apply veq_refl|].
  eapply veq_trans; [apply vadd_compat; [apply IH|apply H]|].
  - intros; apply H; lia.
  - lia.
  - apply vadd_zero_r.
Qed.

(** *** The loops of [sample] *)

Lemma foldM_pure {A S : Type} (f : S -> A -> result S) (g : S -> A -> S)
    (l : list A) :
  (forall (s : S) (x : A), In x l -> f s x = Ok (g s x)) ->
  forall s : S, foldM f l s = Ok (fold_left g l s).
Proof.
  induction l as [|x l IH]; intros H s; [reflexivity|].
  cbn [foldM fold_left]. rewrite H by (left; reflexivity). cbn [bind].
  apply IH. intros; apply H; right; assumption.
Qed.

(** A loop that adds [F i] for the selected indices [i] computes the sum
    of the selected [F i]. *)
Lemma fold_filter_vsum (body : vec3 -> nat -> vec3) (F : nat -> vec3)
    (p : nat -> bool) (count : nat) :
  (forall (r : vec3) (i : nat), (i < count)%nat ->
     veq (body r i) (vadd r (F i))) ->
  forall res : vec3,
    veq (fold_left body (filter p (seq 0 count)) res)
        (vadd res (vsum count (fun i => if p i then F i else vzero))).
Proof.
  induction count as [|c IH]; intros Hbody res.
  - cbn. apply veq_sym, vadd_zero_r.
  - rewrite seq_S, filter_app, fold_left_app. cbn [Nat.add filter vsum].
    assert (IH' := IH (fun r i Hi => Hbody r i (Nat.lt_lt_succ_r _ _ Hi)) res).
    destruct (p c).
    + cbn [fold_left].
      eapply veq_trans; [apply Hbody; lia|].
      eapply veq_trans; [apply vadd_compat; [exact IH'|apply veq_refl]|].
      apply vadd_assoc.
    + cbn [fold_left].
      eapply veq_trans; [exact IH'|].
      apply vadd_compat; [apply veq_refl|].
      apply veq_sym, vadd_zero_r.
Qed.

Lemma nth_map_seq (g : nat -> Q) (count i : nat) :
  (i < count)%nat -> nth i (map g (seq 0 count)) 0 = g i.
Proof.
  intros Hi.
  rewrite (nth_indep _ 0 (g 0%nat)) by (rewrite length_map, length_seq; lia).
  rewrite map_nth, seq_nth by lia. reflexivity.
Qed.

Lemma getitem_row (row : list Q) (i : nat) :
  (i < length row)%nat -> getitem row (Z.of_nat i) = Ok (nth i row 0).
Proof.
  intros Hi. rewrite getitem_in_range by lia. rewrite knot_nth by lia.
  reflexivity.
Qed.

Lemma np_where_ge_In (row : list Q) (c : Q) (i : nat) :
  In i (np_where_ge row c) -> (i < length row)%nat.
Proof.
  unfold np_where_ge. intros H. apply filter_In in H. destruct H as [H _].
  apply in_seq in H. lia.
Qed.

(** The value of the two nested loops. *)
Lemma sample_loops (self : CentralModel) (Bh Bv : list Q) :
  shape (a self) = [n self; m self; 3%nat] ->
  length Bh = n self -> length Bv = m self ->
  exists r : vec3,
    foldM (fun res i =>
      foldM (fun res j =>
        aij <- getitem2 (a self) i j ;;
        bhi <- getitem Bh (Z.of_nat i) ;;
        bvj <- getitem Bv (Z.of_nat j) ;;
        Ok (vadd res (vscale aij (bhi * bvj))))
        (np_where_ge Bv (min_basis_value self)) res)
      (np_where_ge Bh (min_basis_value self)) vzero = Ok r /\
    veq r (truncated_sum self (fun i => nth i Bh 0) (fun j => nth j Bv 0)).
Proof.
  intros Hs Hh Hv.
  set (inner := fun (i : nat) (res : vec3) (j : nat) =>
                  vadd res (vscale (node (a self) i j)
                                   (nth i Bh 0 * nth j Bv 0))).
  set (outer := fun (res : vec3) (i : nat) =>
                  fold_left (inner i) (np_where_ge Bv (min_basis_value self))
                            res).
  eexists. split.
  - apply (foldM_pure _ outer). intros res i Hi.
    apply np_where_ge_In in Hi.
    apply (foldM_pure _ (inner i)). intros res' j Hj.
    apply np_where_ge_In in Hj.
    unfold getitem2. rewrite Hs.
    replace (i <? n self)%nat with true
      by (symmetry; apply Nat.ltb_lt; lia).
    replace (j <? m self)%nat with true
      by (symmetry; apply Nat.ltb_lt; lia).
    cbn [andb bind]. rewrite !getitem_row by assumption. reflexivity.
  - unfold np_where_ge at 1. rewrite Hh.
    eapply veq_trans.
    + apply (fold_filter_vsum outer
               (fun i => vsum (m self) (fun j =>
                  if Qle_bool (min_basis_value self) (nth j Bv 0)
                  then vscale (node (a self) i j) (nth i Bh 0 * nth j Bv 0)
                  else vzero))).
      intros r i Hi. unfold outer, np_where_ge. rewrite Hv.
      apply (fold_filter_vsum (inner i)
               (fun j => vscale (node (a self) i j)
                                (nth i Bh 0 * nth j Bv 0))).
      intros r' j Hj. apply veq_refl.
    + unfold truncated_sum.
      destruct (vsum (n self) _) as [[s0 s1] s2]. cbn. repeat split; ring.
Qed.

(** *** What [sample] returns *)

Lemma truediv_Ok (p q : Q) : ~ q == 0 -> truediv p q = Ok (p / q).
Proof.
  intros H. unfold truediv. destruct (Qeq_bool q 0) eqn:E; [|reflexivity].
  apply Qeq_bool_iff in E. contradiction.
Qed.

Lemma truediv_Raise (p q : Q) : q == 0 -> truediv p q = Raise ZeroDivisionError.
Proof.
  intros H. unfold truediv. apply Qeq_bool_iff in H. rewrite H. reflexivity.
Qed.

Lemma truncated_sum_ext (self : CentralModel) (Bh Bh' Bv Bv' : nat -> Q) :
  (forall i : nat, (i < n self)%nat -> Bh i = Bh' i) ->
  (forall j : nat, (j < m self)%nat -> Bv j = Bv' j) ->
  veq (truncated_sum self Bh Bv) (truncated_sum self Bh' Bv').
Proof.
  intros Hh Hv. unfold truncated_sum. apply vsum_ext. intros i Hi.
  rewrite (Hh i Hi). destruct (Qle_bool _ (Bh' i)); [|apply veq_refl].
  apply vsum_ext. intros j Hj. rewrite (Hv j Hj). apply veq_refl.
Qed.

Lemma sample_Ok (self : CentralModel) (u v : Q) (Bh Bv : nat -> Q) :
  shape (a self) = [n self; m self; 3%nat] ->
  sample_defined self u v Bh Bv ->
  exists r : vec3,
    sample self u v = Ok r /\ veq r (truncated_sum self Bh Bv).
Proof.
  intros Hs (Hgw & Hgh & Hh & Hv). unfold sample.
  rewrite (truediv_Ok _ _ Hgw). cbn [bind].
  rewrite (truediv_Ok _ _ Hgh). cbn [bind].
  fold (mapped (grid_width self) (image_width self) u).
  fold (mapped (grid_height self) (image_height self) v).
  rewrite (basis_row_Ok _ _ _ _ Bh Hh). cbn [bind].
  rewrite (basis_row_Ok _ _ _ _ Bv Hv). cbn [bind].
  destruct (sample_loops self (map Bh (seq 0 (n self)))
              (map Bv (seq 0 (m self))) Hs)
    as (r & Hr & Heq);
    [rewrite length_map, length_seq; reflexivity ..|].
  exists r. split; [exact Hr|].
  eapply veq_trans; [exact Heq|].
  apply truncated_sum_ext; intros; apply nth_map_seq; assumption.
Qed.

Lemma sample_Ok_inv (self : CentralModel) (u v : Q) (r : vec3) :
  sample self u v = Ok r ->
  exists Bh Bv : nat -> Q, sample_defined self u v Bh Bv.
Proof.
  unfold sample. intros H.
  unfold truediv in H.
  destruct (Qeq_bool (grid_width self - 1) 0) eqn:Egw; [discriminate|].
  cbn [bind] in H.
  destruct (Qeq_bool (grid_height self - 1) 0) eqn:Egh; [discriminate|].
  cbn [bind] in H.
  fold (mapped (grid_width self) (image_width self) u) in H.
  fold (mapped (grid_height self) (image_height self) v) in H.
  destruct (basis_row (n self) _ (tv self) _) as [rh|] eqn:Eh; [|discriminate].
  cbn [bind] in H.
  destruct (basis_row (m self) _ (th self) _) as [rv|] eqn:Ev; [|discriminate].
  apply basis_row_inv in Eh, Ev.
  exists (fun i => nth i rh 0), (fun j => nth j rv 0).
  split; [apply Qeq_bool_neq; exact Egw|].
  split; [apply Qeq_bool_neq; exact Egh|].
  split; [apply Eh|apply Ev].
Qed.

Lemma sample_defined_unique (self : CentralModel) (u v : Q)
    (Bh Bv Bh' Bv' : nat -> Q) :
  sample_defined self u v Bh Bv -> sample_defined self u v Bh' Bv' ->
  veq (truncated_sum self Bh Bv) (truncated_sum self Bh' Bv').
Proof.
  intros (_ & _ & Hh & Hv) (_ & _ & Hh' & Hv').
  apply truncated_sum_ext.
  - intros i Hi. specialize (Hh i Hi). specialize (Hh' i Hi). congruence.
  - intros j Hj. specialize (Hv j Hj). specialize (Hv' j Hj). congruence.
Qed.

Lemma init_constructed (kg : KnotVectorProvider)
    (image_dimensions grid_dimensions : py_seq) (control_points : py_array)
    (ord : nat) (knot_method : string) (minb end_divergence : Q)
    (self : CentralModel) :
  init kg image_dimensions grid_dimensions control_points ord knot_method
       minb end_divergence = Ok self ->
  constructed kg self /\ minb = min_basis_value self /\ ord = order self.
Proof.
  intros H.
  destruct (init_cases kg image_dimensions grid_dimensions control_points
              ord knot_method minb end_divergence)
    as [[_ He]|[_ (self' & He & Hc & Ho & Hm & _)]].
  - congruence.
  - assert (self' = self) by congruence. subst self'. auto.
Qed.

(** C2: for a constructed model and a pixel [(u, v)], [sample] returns
    exactly when the quantities of the formula are defined, and what it
    returns is the truncated weighted sum of the control points, with [Bh]
    computed against the vertical knots and [Bv] against the horizontal
    ones. *)
Theorem sample_truncated_sum (kg : KnotVectorProvider)
    (image_dimensions grid_dimensions : py_seq) (control_points : py_array)
    (ord : nat) (knot_method : string) (minb end_divergence : Q)
    (self : CentralModel) (u v : Q) :
  init kg image_dimensions grid_dimensions control_points ord knot_method
       minb end_divergence = Ok self ->
  (forall Bh Bv : nat -> Q,
     sample_defined self u v Bh Bv ->
     exists r : vec3,
       sample self u v = Ok r /\ veq r (truncated_sum self Bh Bv)) /\
  (forall r : vec3,
     sample self u v = Ok r ->
     exists Bh Bv : nat -> Q,
       sample_defined self u v Bh Bv /\ veq r (truncated_sum self Bh Bv)).
Proof.
  intros Hinit. apply init_constructed in Hinit.
  destruct Hinit as [[Hs _ _ _] _]. split.
  - intros Bh Bv Hd. apply sample_Ok; assumption.
  - intros r Hr. destruct (sample_Ok_inv _ _ _ _ Hr) as (Bh & Bv & Hd).
    exists Bh, Bv. split; [exact Hd|].
    destruct (sample_Ok self u v Bh Bv Hs Hd) as (r' & Hr' & Heq).
    assert (r' = r) by congruence. subst r'. exact Heq.
Qed.

(** *** Values of [__B__] over a non-decreasing knot vector *)

Lemma B_step_Ok_range (i k : Z) (t : list Q) (x q : Q) :
  (0 <= i)%Z -> (0 < k)%Z -> B i k t x = Ok q ->
  (i + k + 1 < Z.of_nat (length t))%Z.
Proof.
  intros Hi Hk H. rewrite B_eq_step in H by exact Hk. unfold B_step in H.
  destruct (getitem t i) as [ti|]; [|discriminate]. cbn [bind] in H.
  destruct (getitem t (i + k)) as [tik|]; [|discriminate]. cbn [bind] in H.
  destruct (B i (k - 1) t x) as [c1|]; [|discriminate]. cbn [bind] in H.
  destruct (degenerate (x - ti) (tik - ti)) as [a1 b1].
  destruct (getitem t (i + k + 1)) as [tik1|] eqn:E; [|discriminate].
  apply getitem_Ok_range in E. lia.
Qed.

Lemma B_Ok_Bt (t : list Q) (x q : Q) (k : nat) (i : Z) :
  (0 <= i)%Z -> B i (Z.of_nat k) t x = Ok q -> q = Bt (knot t) k i x.
Proof.
  intros Hi H. destruct k as [|k].
  - change (Z.of_nat 0) with 0%Z in H. rewrite B_eq_base in H.
    unfold B_base in H. cbn [Bt].
    destruct (getitem t i) as [ti|] eqn:Ei; [|discriminate]. cbn [bind] in H.
    pose proof (getitem_Ok_range _ _ _ Ei) as Ri.
    rewrite getitem_in_range in Ei by lia. injection Ei as <-.
    destruct (Qle_bool (knot t i) x); [|congruence].
    destruct (getitem t (i + 1)) as [ti1|] eqn:Ei1; [|discriminate].
    cbn [bind] in H.
    pose proof (getitem_Ok_range _ _ _ Ei1) as Ri1.
    rewrite getitem_in_range in Ei1 by lia. injection Ei1 as <-.
    destruct (Qlt_bool x (knot t (i + 1))); congruence.
  - assert (R : (i + Z.of_nat (S k) + 1 < Z.of_nat (length t))%Z)
      by (apply (B_step_Ok_range i (Z.of_nat (S k)) t x q); [lia|lia|exact H]).
    rewrite B_in_range in H by lia. congruence.
Qed.

Lemma B_Ok_nonneg (t : list Q) (x q : Q) (k : nat) (i : Z) :
  non_decreasing t -> (0 <= i)%Z -> B i (Z.of_nat k) t x = Ok q -> 0 <= q.
Proof.
  intros Ht Hi H. rewrite (B_Ok_Bt _ _ _ _ _ Hi H).
  apply Bt_nonneg. apply knot_mono. exact Ht.
Qed.

Lemma constructed_knots_ok (kg : KnotVectorProvider) (self : CentralModel) :
  knot_contract kg -> constructed kg self ->
  (non_decreasing (th self) /\
   length (th self) = (n self + order self + 2)%nat) /\
  (non_decreasing (tv self) /\
   length (tv self) = (m self + order self + 2)%nat).
Proof.
  intros [Hol Hos Hul Hus] [_ Hn Hm [[-> ->]|[-> ->]]]; auto.
Qed.

Lemma full_sum_truncated (self : CentralModel) (Bh Bv : nat -> Q) :
  (forall i : nat, (i < n self)%nat -> min_basis_value self <= Bh i) ->
  (forall j : nat, (j < m self)%nat -> min_basis_value self <= Bv j) ->
  veq (truncated_sum self Bh Bv) (full_sum self Bh Bv).
Proof.
  intros Hh Hv. unfold truncated_sum, full_sum.
  apply vsum_ext. intros i Hi.
  specialize (Hh i Hi). apply Qle_bool_iff in Hh. rewrite Hh.
  apply vsum_ext. intros j Hj.
  specialize (Hv j Hj). apply Qle_bool_iff in Hv. rewrite Hv.
  apply veq_refl.
Qed.

Lemma sample_defined_nonneg (kg : KnotVectorProvider) (self : CentralModel)
    (u v : Q) (Bh Bv : nat -> Q) :
  knot_contract kg -> constructed kg self ->
  sample_defined self u v Bh Bv ->
  (forall i : nat, (i < n self)%nat -> 0 <= Bh i) /\
  (forall j : nat, (j < m self)%nat -> 0 <= Bv j).
Proof.
  intros Hkg Hc (_ & _ & Hh & Hv).
  destruct (constructed_knots_ok kg self Hkg Hc) as [[Sh _] [Sv _]].
  split.
  - intros i Hi.
    eapply (B_Ok_nonneg (tv self) _ (Bh i) (order self) (Z.of_nat i) Sv);
      [lia|apply Hh; exact Hi].
  - intros j Hj.
    eapply (B_Ok_nonneg (th self) _ (Bv j) (order self) (Z.of_nat j) Sh);
      [lia|apply Hv; exact Hj].
Qed.

(** C4: for a model constructed with [min_basis_value <= 0], no basis
    value falls below the threshold, so both index sets hold every index
    and [sample] returns the full weighted sum. *)
Theorem sample_untruncated (kg : KnotVectorProvider)
    (image_dimensions grid_dimensions : py_seq) (control_points : py_array)
    (ord : nat) (knot_method : string) (minb end_divergence : Q)
    (self : CentralModel) (u v : Q) :
  knot_contract kg ->
  init kg image_dimensions grid_dimensions control_points ord knot_method
       minb end_divergence = Ok self ->
  minb <= 0 ->
  (forall Bh Bv : nat -> Q,
     sample_defined self u v Bh Bv ->
     (forall i : nat, (i < n self)%nat -> min_basis_value self <= Bh i) /\
     (forall j : nat, (j < m self)%nat -> min_basis_value self <= Bv j) /\
     exists r : vec3, sample self u v = Ok r /\ veq r (full_sum self Bh Bv)) /\
  (forall r : vec3,
     sample self u v = Ok r ->
     exists Bh Bv : nat -> Q,
       sample_defined self u v Bh Bv /\ veq r (full_sum self Bh Bv)).
Proof.
  intros Hkg Hinit Hmin. apply init_constructed in Hinit.
  destruct Hinit as (Hc & -> & _).
  assert (Hall : forall Bh Bv : nat -> Q,
             sample_defined self u v Bh Bv ->
             (forall i : nat, (i < n self)%nat ->
                min_basis_value self <= Bh i) /\
             (forall j : nat, (j < m self)%nat ->
                min_basis_value self <= Bv j)).
  { intros Bh Bv Hd.
    destruct (sample_defined_nonneg kg self u v Bh Bv Hkg Hc Hd) as [Ph Pv].
    split; intros i Hi; (eapply Qle_trans; [exact Hmin|]); auto. }
  split.
  - intros Bh Bv Hd. destruct (Hall Bh Bv Hd) as [Ph Pv].
    split; [exact Ph|]. split; [exact Pv|].
    destruct (sample_Ok self u v Bh Bv (constructed_shape _ _ Hc) Hd)
      as (r & Hr & Heq).
    exists r. split; [exact Hr|].
    eapply veq_trans; [exact Heq|]. apply full_sum_truncated; assumption.
  - intros r Hr. destruct (sample_Ok_inv _ _ _ _ Hr) as (Bh & Bv & Hd).
    exists Bh, Bv. split; [exact Hd|].
    destruct (Hall Bh Bv Hd) as [Ph Pv].
    destruct (sample_Ok self u v Bh Bv (constructed_shape _ _ Hc) Hd)
      as (r' & Hr' & Heq).
    assert (r' = r) by congruence. subst r'.
    eapply veq_trans; [exact Heq|]. apply full_sum_truncated; assumption.
Qed.

(** *** The knot generators modelled from the specification *)

Lemma Qclamp01_mono (p q : Q) : p <= q -> Qclamp01 p <= Qclamp01 q.
Proof.
  intros H. unfold Qclamp01.
  destruct (Qle_bool p 0) eqn:Ep0; destruct (Qle_bool q 0) eqn:Eq0;
    destruct (Qle_bool 1 p) eqn:Ep1; destruct (Qle_bool 1 q) eqn:Eq1;
    try apply Qle_bool_iff in Ep0; try apply Qle_bool_iff in Eq0;
    try apply Qle_bool_iff in Ep1; try apply Qle_bool_iff in Eq1;
    try (assert (~ p <= 0)
          by (intro K; apply Qle_bool_iff in K; congruence); clear Ep0);
    try (assert (~ q <= 0)
          by (intro K; apply Qle_bool_iff in K; congruence); clear Eq0);
    try (assert (~ 1 <= p)
          by (intro K; apply Qle_bool_iff in K; congruence); clear Ep1);
    try (assert (~ 1 <= q)
          by (intro K; apply Qle_bool_iff in K; congruence); clear Eq1);
    lra.
Qed.

Lemma Qmake_mono (z z' : Z) (d : positive) : (z <= z')%Z -> z # d <= z' # d.
Proof.
  intros H. unfold Qle. cbn [Qnum Qden]. nia.
Qed.

Lemma map_seq_non_decreasing (g : nat -> Q) (count : nat) :
  (forall j : nat, g j <= g (S j)) ->
  non_decreasing (map g (seq 0 count)).
Proof.
  intros Hg j Hj. rewrite length_map, length_seq in Hj.
  rewrite !nth_map_seq by lia. apply Hg.
Qed.

Lemma spec_kg_contract : knot_contract spec_kg.
Proof.
  split; cbn [open_uniform uniform spec_kg]; intros count ord Ho.
  - unfold spec_open_uniform. rewrite length_map, length_seq. reflexivity.
  - apply map_seq_non_decreasing. intros j.
    apply Qclamp01_mono, Qmake_mono. lia.
  - unfold spec_uniform. rewrite length_map, length_seq. reflexivity.
  - apply map_seq_non_decreasing. intros j. apply Qmake_mono. lia.
Qed.

(** *** Examples on the concrete model *)

Lemma init_scenario_A :
  init spec_kg (PyTuple [100; 100]) (PyTuple [100; 100])
       (Ndarray (constant_grid 5 5 (0, 0, 1))) 2 "open_uniform"
       (1 # 1000) (1 # 10000000000) = Ok scenario_A.
Proof. vm_compute. reflexivity. Qed.

Lemma sample_scenario_A_outside : sample scenario_A 1000 1000 = Ok vzero.
Proof. vm_compute. reflexivity. Qed.

Lemma sample_truncated_sum_witness :
  (forall Bh Bv : nat -> Q,
     sample_defined scenario_A 50 50 Bh Bv ->
     exists r : vec3,
       sample scenario_A 50 50 = Ok r /\
       veq r (truncated_sum scenario_A Bh Bv)) /\
  (forall r : vec3,
     sample scenario_A 50 50 = Ok r ->
     exists Bh Bv : nat -> Q,
       sample_defined scenario_A 50 50 Bh Bv /\
       veq r (truncated_sum scenario_A Bh Bv)).
Proof.
  apply (sample_truncated_sum spec_kg (PyTuple [100; 100])
           (PyTuple [100; 100]) (Ndarray (constant_grid 5 5 (0, 0, 1))) 2
           "open_uniform" (1 # 1000) (1 # 10000000000) scenario_A 50 50).
  vm_compute. reflexivity.
Defined.

(** The same grid with the truncation switched off. *)
Lemma sample_untruncated_witness :
  exists self : CentralModel,
    init spec_kg (PyTuple [100; 100]) (PyTuple [100; 100])
         (Ndarray (constant_grid 5 5 (0, 0, 1))) 2 "open_uniform"
         0 (1 # 10000000000) = Ok self /\
    (forall Bh Bv : nat -> Q,
       sample_defined self 50 50 Bh Bv ->
       (forall i : nat, (i < n self)%nat -> min_basis_value self <= Bh i) /\
       (forall j : nat, (j < m self)%nat -> min_basis_value self <= Bv j) /\
       exists r : vec3,
         sample self 50 50 = Ok r /\ veq r (full_sum self Bh Bv)) /\
    (forall r : vec3,
       sample self 50 50 = Ok r ->
       exists Bh Bv : nat -> Q,
         sample_defined self 50 50 Bh Bv /\ veq r (full_sum self Bh Bv)).
Proof.
  eexists. split; [vm_compute; reflexivity|].
  eapply (sample_untruncated spec_kg (PyTuple [100; 100])
            (PyTuple [100; 100]) (Ndarray (constant_grid 5 5 (0, 0, 1))) 2
            "open_uniform" 0 (1 # 10000000000) _ 50 50).
  - exact spec_kg_contract.
  - vm_compute. reflexivity.
  - discriminate.
Defined.

(** *** Sampling outside every support *)

Lemma knot_last (t : list Q) :
  knot t (Z.of_nat (pred (length t))) = last t 0.
Proof.
  unfold knot. rewrite Nat2Z.id, nth_last_default.
  destruct t as [|q t]; [reflexivity|]. apply last_cons_indep.
Qed.

(** A parameter at or beyond the final knot is outside every support. *)
Lemma beyond_last_knot_outside (t : list Q) (count order : nat) (x : Q) :
  non_decreasing t -> (count + order < length t)%nat ->
  last t 0 <= x -> outside_supports t count order x.
Proof.
  intros Ht Hlen Hx i Hi [_ Hlt].
  apply (Qlt_not_le _ _ Hlt). eapply Qle_trans; [|exact Hx].
  rewrite <- knot_last, <- knot_nth by lia.
  apply kn_le; [apply knot_mono; exact Ht|lia].
Qed.

Lemma Bt_outside (t : list Q) (order i : nat) (x : Q) :
  non_decreasing t -> (i + order + 1 < length t)%nat ->
  ~ (nth i t 0 <= x /\ x < nth (i + order + 1) t 0) ->
  Bt (knot t) order (Z.of_nat i) x == 0.
Proof.
  intros Ht Hlen Hout.
  rewrite <- !knot_nth in Hout by lia.
  destruct (Qlt_le_dec x (knot t (Z.of_nat i))) as [Hx|Hx].
  - apply Bt_zero_left; [apply knot_mono; exact Ht|exact Hx].
  - apply Bt_zero_right; [apply knot_mono; exact Ht|].
    replace (Z.of_nat i + Z.of_nat order + 1)%Z
      with (Z.of_nat (i + order + 1)) by lia.
    apply Qnot_lt_le. intros Hlt. apply Hout. split; assumption.
Qed.

Lemma truncated_sum_zero (self : CentralModel) (Bh Bv : nat -> Q) :
  (forall i : nat, (i < n self)%nat -> Bh i == 0) \/
  (forall j : nat, (j < m self)%nat -> Bv j == 0) ->
  veq (truncated_sum self Bh Bv) vzero.
Proof.
  intros H. unfold truncated_sum. apply vsum_zero. intros i Hi.
  destruct (Qle_bool _ (Bh i)); [|apply veq_refl].
  apply vsum_zero. intros j Hj.
  destruct (Qle_bool _ (Bv j)); [|apply veq_refl].
  apply vscale_zero. destruct H as [H|H].
  - rewrite (H i Hi). ring.
  - rewrite (H j Hj). ring.
Qed.

(** With every knot read in range and both divisors not zero, the
    quantities of the sampling formula are defined. *)
Lemma sample_defined_in_range (self : CentralModel) (u v : Q) :
  (n self + order self < length (tv self))%nat ->
  (m self + order self < length (th self))%nat ->
  ~ grid_width self - 1 == 0 -> ~ grid_height self - 1 == 0 ->
  sample_defined self u v
    (fun i => Bt (knot (tv self)) (order self) (Z.of_nat i)
                 (mapped (grid_width self) (image_width self) u))
    (fun j => Bt (knot (th self)) (order self) (Z.of_nat j)
                 (mapped (grid_height self) (image_height self) v)).
Proof.
  intros Hv Hh Hgw Hgh. split; [exact Hgw|]. split; [exact Hgh|].
  split; intros i Hi; apply B_in_range; lia.
Qed.

(** On a grid whose counts differ by at most one every knot read is in
    range: with grid dimensions other than 1, a pixel whose mapped parameter
    lies outside every basis function's support on one axis makes [sample]
    return the zero vector, without an error. *)
Lemma sample_outside_support_zero (kg : KnotVectorProvider)
    (image_dimensions grid_dimensions : py_seq) (control_points : py_array)
    (ord : nat) (knot_method : string) (minb end_divergence : Q)
    (self : CentralModel) (u v : Q) :
  knot_contract kg ->
  init kg image_dimensions grid_dimensions control_points ord knot_method
       minb end_divergence = Ok self ->
  (n self <= m self + 1)%nat -> (m self <= n self + 1)%nat ->
  ~ grid_width self - 1 == 0 -> ~ grid_height self - 1 == 0 ->
  outside_supports (tv self) (n self) (order self)
    (mapped (grid_width self) (image_width self) u) \/
  outside_supports (th self) (m self) (order self)
    (mapped (grid_height self) (image_height self) v) ->
  exists r : vec3, sample self u v = Ok r /\ veq r vzero.
Proof.
  intros Hkg Hinit Hnm Hmn Hgw Hgh Hout.
  apply init_constructed in Hinit. destruct Hinit as (Hc & _ & _).
  destruct (constructed_knots_ok kg self Hkg Hc) as [[Sh Lh] [Sv Lv]].
  pose proof (sample_defined_in_range self u v ltac:(lia) ltac:(lia) Hgw Hgh)
    as Hd.
  destruct (sample_Ok self u v _ _ (constructed_shape _ _ Hc) Hd)
    as (r & Hr & Heq).
  exists r. split; [exact Hr|].
  eapply veq_trans; [exact Heq|].
  apply truncated_sum_zero. destruct Hout as [Hout|Hout]; [left|right].
  - intros i Hi. apply Bt_outside; [exact Sv|lia|apply Hout; exact Hi].
  - intros j Hj. apply Bt_outside; [exact Sh|lia|apply Hout; exact Hj].
Qed.

(** The pixel 99 of scenario A is mapped to 1, the final knot: the
    right-open base intervals exclude it and the sample is zero. *)
Lemma sample_at_final_knot :
  mapped (grid_width scenario_A) (image_width scenario_A) 99
  == last (tv scenario_A) 0 /\
  exists r : vec3, sample scenario_A 99 99 = Ok r /\ veq r vzero.
Proof.
  split; [vm_compute; reflexivity|].
  apply (sample_outside_support_zero spec_kg (PyTuple [100; 100])
           (PyTuple [100; 100]) (Ndarray (constant_grid 5 5 (0, 0, 1))) 2
           "open_uniform" (1 # 1000) (1 # 10000000000) scenario_A 99 99).
  - exact spec_kg_contract.
  - vm_compute. reflexivity.
  - vm_compute. lia.
  - vm_compute. lia.
  - vm_compute. discriminate.
  - vm_compute. discriminate.
  - left. apply beyond_last_knot_outside.
    + apply non_decreasingb_sound. vm_compute. reflexivity.
    + vm_compute. lia.
    + vm_compute. discriminate.
Qed.

(** *** Rectangular grids *)

Lemma B_error_kind (t : list Q) (x : Q) (k : nat) :
  forall (i : Z) (e : exn),
    B i (Z.of_nat k) t x = Raise e -> e = IndexError.
Proof.
  induction k as [|k IH]; intros i e H.
  - change (Z.of_nat 0) with 0%Z in H. rewrite B_eq_base in H.
    unfold B_base in H.
    destruct (getitem t i) as [ti|e'] eqn:Ei;
      [|apply getitem_error in Ei; cbn [bind] in H; congruence].
    cbn [bind] in H. destruct (Qle_bool ti x); [|discriminate].
    destruct (getitem t (i + 1)) as [ti1|e'] eqn:Ei1;
      [|apply getitem_error in Ei1; cbn [bind] in H; congruence].
    cbn [bind] in H. destruct (Qlt_bool x ti1); discriminate.
  - rewrite B_eq_step in H by lia.
    replace (Z.of_nat (S k) - 1)%Z with (Z.of_nat k) in H by lia.
    unfold B_step in H.
    destruct (getitem t i) as [ti|e'] eqn:Ei;
      [|apply getitem_error in Ei; cbn [bind] in H; congruence].
    cbn [bind] in H.
    destruct (getitem t (i + Z.of_nat (S k))) as [tik|e'] eqn:Eik;
      [|apply getitem_error in Eik; cbn [bind] in H; congruence].
    cbn [bind] in H.
    destruct (B i (Z.of_nat k) t x) as [c1|e'] eqn:E1;
      [|apply IH in E1; cbn [bind] in H; congruence].
    cbn [bind] in H.
    pose proof (truediv_degenerate (x - ti) (tik - ti)) as D1.
    destruct (degenerate (x - ti) (tik - ti)) as [a1 b1].
    destruct (getitem t (i + Z.of_nat (S k) + 1)) as [tik1|e'] eqn:Eik1;
      [|apply getitem_error in Eik1; cbn [bind] in H; congruence].
    cbn [bind] in H.
    destruct (getitem t (i + 1)) as [ti1|e'] eqn:Ei1;
      [|apply getitem_error in Ei1; cbn [bind] in H; congruence].
    cbn [bind] in H.
    destruct (B (i + 1) (Z.of_nat k) t x) as [c2|e'] eqn:E2;
      [|apply IH in E2; cbn [bind] in H; congruence].
    cbn [bind] in H.
    pose proof (truediv_degenerate (tik1 - x) (tik1 - ti1)) as D2.
    destruct (degenerate (tik1 - x) (tik1 - ti1)) as [a2 b2].
    cbn [fst snd] in D1, D2. rewrite D1, D2 in H. discriminate.
Qed.

(** The first statement of either branch reads [t[i]]. *)
Lemma B_first_read (t : list Q) (x : Q) (k : nat) (i : Z) (e : exn) :
  getitem t i = Raise e -> B i (Z.of_nat k) t x = Raise e.
Proof.
  intros H. destruct k as [|k].
  - change (Z.of_nat 0) with 0%Z. rewrite B_eq_base. unfold B_base.
    rewrite H. reflexivity.
  - rewrite B_eq_step by lia. unfold B_step. rewrite H. reflexivity.
Qed.

Lemma mapM_raises {A B : Type} (f : A -> result B) (l : list A) (e : exn) :
  (forall (x : A) (e' : exn), In x l -> f x = Raise e' -> e' = e) ->
  (exists x : A, In x l /\ f x = Raise e) ->
  mapM f l = Raise e.
Proof.
  intros Hk (x & Hin & Hx).
  destruct (mapM f l) as [ys|e'] eqn:E.
  - destruct (In_nth l x x Hin) as (i & Hi & Hn).
    destruct (mapM_inv f l ys E) as [_ Hnth].
    destruct ys as [|y ys'].
    + apply mapM_inv in E. destruct E as [E _]. cbn [length] in E. lia.
    + specialize (Hnth i x y Hi). rewrite Hn in Hnth. congruence.
  - apply mapM_Raise in E. destruct E as (x' & Hin' & Hx').
    f_equal. apply (Hk x' e' Hin' Hx').
Qed.

(** The horizontal basis values are computed for [n] indices against the
    vertical knot vector, which the constructor sizes from [m]: once [n]
    exceeds its length, [sample] raises [IndexError] at every pixel. *)
Lemma sample_short_knots_raise (self : CentralModel) (u v : Q) :
  (length (tv self) < n self)%nat ->
  ~ grid_width self - 1 == 0 -> ~ grid_height self - 1 == 0 ->
  sample self u v = Raise IndexError.
Proof.
  intros Hlen Hgw Hgh. unfold sample.
  rewrite (truediv_Ok _ _ Hgw). cbn [bind].
  rewrite (truediv_Ok _ _ Hgh). cbn [bind].
  unfold basis_row at 1. rewrite (mapM_raises _ _ IndexError).
  - reflexivity.
  - intros i e _ H. apply B_error_kind in H. exact H.
  - exists (length (tv self)). split; [apply in_seq; lia|].
    apply B_first_read. apply getitem_out_of_range. lia.
Qed.

(** C6 fails on the code: the 4 by 2 grid of order 1 is constructed, the
    pixel (1000, 1000) is mapped beyond the final knot on both axes, and
    [sample] raises [IndexError] instead of returning the zero vector: the
    fourth horizontal basis function reads the knot of index 5 of the
    vertical knot vector, which has 5 entries. *)
Theorem sample_rectangular_grid_raises :
  exists self : CentralModel,
    init spec_kg (PyTuple [100; 100]) (PyTuple [100; 100])
         (Ndarray (constant_grid 4 2 (0, 0, 1))) 1 "open_uniform"
         (1 # 1000) (1 # 10000000000) = Ok self /\
    last (tv self) 0 <= mapped (grid_width self) (image_width self) 1000 /\
    last (th self) 0 <= mapped (grid_height self) (image_height self) 1000 /\
    sample self 1000 1000 = Raise IndexError.
Proof.
  eexists. split; [vm_compute; reflexivity|].
  split; [vm_compute; discriminate|].
  split; [vm_compute; discriminate|].
  vm_compute. reflexivity.
Qed.

(** *** Knot accesses *)

(** [__B__] reads the knots of index [i] to [i + k + 1] only. *)
Lemma B_reads_only (t t' : list Q) (x : Q) (k : nat) :
  forall i : Z,
    (forall j : Z, (i <= j <= i + Z.of_nat k + 1)%Z ->
       getitem t j = getitem t' j) ->
    B i (Z.of_nat k) t x = B i (Z.of_nat k) t' x.
Proof.
  induction k as [|k IH]; intros i H.
  - change (Z.of_nat 0) with 0%Z. rewrite !B_eq_base. unfold B_base.
    rewrite (H i), (H (i + 1)%Z) by lia. reflexivity.
  - rewrite !(B_eq_step _ (Z.of_nat (S k))) by lia.
    replace (Z.of_nat (S k) - 1)%Z with (Z.of_nat k) by lia.
    rewrite (IH i) by (intros; apply H; lia).
    rewrite (IH (i + 1)%Z) by (intros; apply H; lia).
    unfold B_step.
    rewrite (H i), (H (i + Z.of_nat (S k))%Z),
      (H (i + Z.of_nat (S k) + 1)%Z), (H (i + 1)%Z) by lia.
    reflexivity.
Qed.

Lemma sample_division_by_zero (self : CentralModel) (u v : Q) :
  grid_width self - 1 == 0 \/ grid_height self - 1 == 0 ->
  sample self u v = Raise ZeroDivisionError.
Proof.
  intros H. unfold sample.
  destruct (Qeq_bool (grid_width self - 1) 0) eqn:Egw.
  - unfold truediv at 1. rewrite Egw. reflexivity.
  - apply Qeq_bool_neq in Egw. rewrite (truediv_Ok _ _ Egw). cbn [bind].
    destruct H as [H|H]; [contradiction|].
    rewrite (truediv_Raise _ _ H). reflexivity.
Qed.

(** C10: in a constructed model with a square control grid both knot
    vectors have [count + order + 2] entries, the largest index read,
    [i + order + 1] for the last basis function, is below that length on
    either axis, and [sample] never raises [IndexError]: it returns a
    vector unless a grid dimension is 1. *)
Theorem sample_knot_access_in_range (kg : KnotVectorProvider)
    (image_dimensions grid_dimensions : py_seq) (control_points : py_array)
    (ord : nat) (knot_method : string) (minb end_divergence : Q)
    (self : CentralModel) :
  knot_contract kg ->
  init kg image_dimensions grid_dimensions control_points ord knot_method
       minb end_divergence = Ok self ->
  n self = m self ->
  length (tv self) = (m self + order self + 2)%nat /\
  length (th self) = (n self + order self + 2)%nat /\
  (forall i : nat, (i < n self)%nat ->
     (i + order self + 1 < length (tv self))%nat) /\
  (forall j : nat, (j < m self)%nat ->
     (j + order self + 1 < length (th self))%nat) /\
  forall u v : Q,
    sample self u v <> Raise IndexError /\
    (forall i : nat, (i < n self)%nat ->
       exists q : Q,
         B (Z.of_nat i) (Z.of_nat (order self)) (tv self) u = Ok q) /\
    (forall j : nat, (j < m self)%nat ->
       exists q : Q,
         B (Z.of_nat j) (Z.of_nat (order self)) (th self) v = Ok q).
Proof.
  intros Hkg Hinit Hsq.
  apply init_constructed in Hinit. destruct Hinit as (Hc & _ & _).
  destruct (constructed_knots_ok kg self Hkg Hc) as [[Sh Lh] [Sv Lv]].
  split; [exact Lv|]. split; [exact Lh|].
  split; [intros; lia|]. split; [intros; lia|].
  intros u v. split; [|split].
  - destruct (Qeq_bool (grid_width self - 1) 0) eqn:Egw.
    { apply Qeq_bool_iff in Egw.
      rewrite sample_division_by_zero by (left; exact Egw). discriminate. }
    destruct (Qeq_bool (grid_height self - 1) 0) eqn:Egh.
    { apply Qeq_bool_iff in Egh.
      rewrite sample_division_by_zero by (right; exact Egh). discriminate. }
    apply Qeq_bool_neq in Egw, Egh.
    pose proof (sample_defined_in_range self u v ltac:(lia) ltac:(lia)
                  Egw Egh) as Hd.
    destruct (sample_Ok self u v _ _ (constructed_shape _ _ Hc) Hd)
      as (r & Hr & _).
    rewrite Hr. discriminate.
  - intros i Hi. eexists. apply B_in_range; lia.
  - intros j Hj. eexists. apply B_in_range; lia.
Qed.

Lemma sample_knot_access_in_range_witness :
  length (tv scenario_A) = (m scenario_A + order scenario_A + 2)%nat /\
  length (th scenario_A) = (n scenario_A + order scenario_A + 2)%nat /\
  (forall i : nat, (i < n scenario_A)%nat ->
     (i + order scenario_A + 1 < length (tv scenario_A))%nat) /\
  (forall j : nat, (j < m scenario_A)%nat ->
     (j + order scenario_A + 1 < length (th scenario_A))%nat) /\
  forall u v : Q,
    sample scenario_A u v <> Raise IndexError /\
    (forall i : nat, (i < n scenario_A)%nat ->
       exists q : Q,
         B (Z.of_nat i) (Z.of_nat (order scenario_A)) (tv scenario_A) u
         = Ok q) /\
    (forall j : nat, (j < m scenario_A)%nat ->
       exists q : Q,
         B (Z.of_nat j) (Z.of_nat (order scenario_A)) (th scenario_A) v
         = Ok q).
Proof.
  apply (sample_knot_access_in_range spec_kg (PyTuple [100; 100])
           (PyTuple [100; 100]) (Ndarray (constant_grid 5 5 (0, 0, 1))) 2
           "open_uniform" (1 # 1000) (1 # 10000000000) scenario_A).
  - exact spec_kg_contract.
  - vm_compute. reflexivity.
  - reflexivity.
Defined.

(** *** Normalised sampling *)

Lemma dot_zero (s : vec3) : veq s vzero -> dot s s == 0.
Proof.
  destruct s as [[s0 s1] s2]. cbn. intros (-> & -> & ->). ring.
Qed.

Lemma dot_pos (s : vec3) : ~ veq s vzero -> 0 < dot s s.
Proof.
  destruct s as [[s0 s1] s2]. cbn. intros H.
  assert (H0 : 0 <= s0 * s0) by nra.
  assert (H1 : 0 <= s1 * s1) by nra.
  assert (H2 : 0 <= s2 * s2) by nra.
  destruct (Qeq_dec s0 0) as [E0|E0].
  - destruct (Qeq_dec s1 0) as [E1|E1].
    + destruct (Qeq_dec s2 0) as [E2|E2].
      * exfalso. apply H. repeat split; assumption.
      * assert (0 < s2 * s2) by nra. lra.
    + assert (0 < s1 * s1) by nra. lra.
  - assert (0 < s0 * s0) by nra. lra.
Qed.

Lemma norm_zero (s : vec3) : veq s vzero -> np_linalg_norm s = 0%R.
Proof.
  intros H. unfold np_linalg_norm.
  rewrite (Qeq_eqR _ _ (dot_zero s H)), RMicromega.Q2R_0. apply sqrt_0.
Qed.

Lemma norm_pos (s : vec3) : ~ veq s vzero -> (0 < np_linalg_norm s)%R.
Proof.
  intros H. unfold np_linalg_norm. apply sqrt_lt_R0.
  rewrite <- RMicromega.Q2R_0. apply Qlt_Rlt, dot_pos, H.
Qed.

Lemma np_true_divide_zero (c : Q) (d : R) :
  c == 0 -> d = 0%R -> np_true_divide c d = np_nan.
Proof.
  intros Hc Hd. unfold np_true_divide.
  destruct (Req_dec_T d 0) as [_|K]; [|contradiction].
  apply Qeq_bool_iff in Hc. rewrite Hc. reflexivity.
Qed.

Lemma np_true_divide_finite (c : Q) (d : R) :
  (0 < d)%R -> np_true_divide c d = np_finite (Q2R c / d)%R.
Proof.
  intros Hd. unfold np_true_divide.
  destruct (Req_dec_T d 0) as [K|_]; [|reflexivity].
  exfalso. apply (Rlt_irrefl 0). rewrite <- K at 2. exact Hd.
Qed.

Lemma sample_normalized_zero (self : CentralModel) (u v : Q) (s : vec3) :
  sample self u v = Ok s -> veq s vzero ->
  sample_normalized self u v = Ok (np_nan, np_nan, np_nan).
Proof.
  intros Hs Hz. unfold sample_normalized. rewrite Hs. cbn [bind].
  pose proof (norm_zero s Hz) as Hn.
  destruct s as [[s0 s1] s2]. destruct Hz as (Z0 & Z1 & Z2).
  rewrite !np_true_divide_zero by assumption. reflexivity.
Qed.

Lemma sample_normalized_nonzero (self : CentralModel) (u v : Q) (s : vec3) :
  sample self u v = Ok s -> ~ veq s vzero ->
  sample_normalized self u v
  = Ok (np_finite (Q2R (fst (fst s)) / np_linalg_norm s)%R,
        np_finite (Q2R (snd (fst s)) / np_linalg_norm s)%R,
        np_finite (Q2R (snd s) / np_linalg_norm s)%R).
Proof.
  intros Hs Hz. unfold sample_normalized. rewrite Hs. cbn [bind].
  pose proof (norm_pos s Hz) as Hn.
  destruct s as [[s0 s1] s2].
  rewrite !np_true_divide_finite by assumption. reflexivity.
Qed.

(** C5, as amended: where [sample] returns the zero vector,
    [sample_normalized] raises nothing and returns three [nan]s (numpy
    divides 0 by the zero norm); where [sample] returns a vector that is
    not zero, its norm is positive and [sample_normalized] returns the
    vector divided by its Euclidean norm. *)
Theorem sample_normalized_spec (self : CentralModel) (u v : Q) (s : vec3) :
  sample self u v = Ok s ->
  (veq s vzero ->
   sample_normalized self u v = Ok (np_nan, np_nan, np_nan)) /\
  (~ veq s vzero ->
   (0 < np_linalg_norm s)%R /\
   np_linalg_norm s = sqrt (Q2R (dot s s)) /\
   sample_normalized self u v
   = Ok (np_finite (Q2R (fst (fst s)) / np_linalg_norm s)%R,
         np_finite (Q2R (snd (fst s)) / np_linalg_norm s)%R,
         np_finite (Q2R (snd s) / np_linalg_norm s)%R)).
Proof.
  intros Hs. split.
  - intros Hz. apply (sample_normalized_zero self u v s Hs Hz).
  - intros Hz. split; [apply norm_pos; exact Hz|].
    split; [reflexivity|].
    apply (sample_normalized_nonzero self u v s Hs Hz).
Qed.

Lemma sample_normalized_spec_witness :
  sample scenario_A 1000 1000 = Ok vzero /\
  (veq vzero vzero ->
   sample_normalized scenario_A 1000 1000 = Ok (np_nan, np_nan, np_nan)) /\
  (~ veq vzero vzero ->
   (0 < np_linalg_norm vzero)%R /\
   np_linalg_norm vzero = sqrt (Q2R (dot vzero vzero)) /\
   sample_normalized scenario_A 1000 1000
   = Ok (np_finite (Q2R (fst (fst vzero)) / np_linalg_norm vzero)%R,
         np_finite (Q2R (snd (fst vzero)) / np_linalg_norm vzero)%R,
         np_finite (Q2R (snd vzero) / np_linalg_norm vzero)%R)).
Proof.
  split; [vm_compute; reflexivity|].
  apply (sample_normalized_spec scenario_A 1000 1000 vzero).
  vm_compute. reflexivity.
Defined.

(** C5, as stated, fails: at the pixel (1000, 1000) of the constructed
    model [sample] returns exactly the zero vector, and
    [sample_normalized] returns three [nan]s instead of raising a
    division error. *)
Lemma sample_normalized_counterexample :
  init spec_kg (PyTuple [100; 100]) (PyTuple [100; 100])
       (Ndarray (constant_grid 5 5 (0, 0, 1))) 2 "open_uniform"
       (1 # 1000) (1 # 10000000000) = Ok scenario_A /\
  sample scenario_A 1000 1000 = Ok (0, 0, 0) /\
  sample_normalized scenario_A 1000 1000 = Ok (np_nan, np_nan, np_nan) /\
  sample_normalized scenario_A 1000 1000 <> Raise ZeroDivisionError.
Proof.
  split; [exact init_scenario_A|].
  split; [exact sample_scenario_A_outside|].
  assert (H : sample_normalized scenario_A 1000 1000
              = Ok (np_nan, np_nan, np_nan)).
  { apply (sample_normalized_zero _ _ _ vzero sample_scenario_A_outside).
    apply veq_refl. }
  split; [exact H|]. rewrite H. discriminate.
Qed.

(** ** Further properties of the basis function *)

Lemma B_negative (i k : Z) (t : list Q) (x : Q) :
  (k < 0)%Z -> B i k t x = Raise IndexError.
Proof.
  intros Hk. unfold B.
  rewrite (B_fuel_negative_raises (B_depth i k t) i k t x Hk);
    [reflexivity|].
  unfold B_depth. lia.
Qed.

(** Whatever the index, the order, the knots and the parameter, [__B__]
    returns a number or raises [IndexError]: the two divisions are guarded
    and never raise. *)
Theorem B_returns_or_IndexError (i k : Z) (t : list Q) (x : Q) :
  (exists q : Q, B i k t x = Ok q) \/ B i k t x = Raise IndexError.
Proof.
  destruct (Z_lt_le_dec k 0) as [Hk|Hk].
  - right. apply B_negative. exact Hk.
  - destruct (B i k t x) as [q|e] eqn:E; [left; exists q; reflexivity|].
    right. f_equal. rewrite <- (Z2Nat.id k) in E by exact Hk.
    apply (B_error_kind t x (Z.to_nat k) i e E).
Qed.

(** For a negative order the recursion never reaches its base case, yet it
    ends: the read of [t[i + k]] leaves the sequence after at most
    [i + k + len + 1] levels and raises [IndexError]. *)
Theorem B_negative_order_raises (i k : Z) (t : list Q) (x : Q) :
  (k < 0)%Z ->
  B i k t x = Raise IndexError /\
  forall fuel : nat,
    (Z.to_nat (i + k + Z.of_nat (length t) + 1) < fuel)%nat ->
    B_fuel fuel i k t x = Some (Raise IndexError).
Proof.
  intros Hk. split; [apply B_negative; exact Hk|].
  intros fuel Hf. apply B_fuel_negative_raises; assumption.
Qed.

Lemma B_negative_order_raises_witness :
  B 1 (-1) [0; 1; 2] 1 = Raise IndexError /\
  forall fuel : nat,
    (Z.to_nat (1 + -1 + Z.of_nat (length [0; 1; 2]) + 1) < fuel)%nat ->
    B_fuel fuel 1 (-1) [0; 1; 2] 1 = Some (Raise IndexError).
Proof.
  apply (B_negative_order_raises 1 (-1) [0; 1; 2] 1). lia.
Defined.

(** For [k > 0] the knot of index [i + k + 1] is read whatever the
    parameter: when it lies beyond the end of the knot vector, the call
    raises [IndexError]. *)
Theorem B_out_of_range_raises (i k : Z) (t : list Q) (x : Q) :
  (0 <= i)%Z -> (0 < k)%Z -> (Z.of_nat (length t) <= i + k + 1)%Z ->
  B i k t x = Raise IndexError.
Proof.
  intros Hi Hk Hlen.
  destruct (B i k t x) as [q|e] eqn:E.
  - pose proof (B_step_Ok_range i k t x q Hi Hk E). lia.
  - f_equal. rewrite <- (Z2Nat.id k) in E by lia.
    apply (B_error_kind t x (Z.to_nat k) i e E).
Qed.

Lemma B_out_of_range_raises_witness :
  B 1 2 [0; 1; 2; 3] (3 # 2) = Raise IndexError.
Proof.
  apply (B_out_of_range_raises 1 2 [0; 1; 2; 3] (3 # 2)); cbn [length]; lia.
Defined.

(** At order 0 the upper knot is read only when [t[i] <= x]: on the last
    index of the knot vector the call returns 0 for a parameter below
    [t[i]] and raises [IndexError] from [t[i]] on. *)
Theorem B_order0_last_index (t : list Q) (i : Z) (x ti : Q) :
  (0 <= i)%Z -> (i + 1 = Z.of_nat (length t))%Z ->
  getitem t i = Ok ti ->
  (x < ti -> B i 0 t x = Ok 0) /\
  (ti <= x -> B i 0 t x = Raise IndexError).
Proof.
  intros Hi Hlast Hti. rewrite B_eq_base. unfold B_base. rewrite Hti.
  cbn [bind]. split; intros Hx.
  - destruct (Qle_bool ti x) eqn:E; [|reflexivity].
    apply Qle_bool_iff in E. exfalso. apply (Qlt_not_le _ _ Hx E).
  - apply Qle_bool_iff in Hx. rewrite Hx.
    rewrite getitem_out_of_range by lia. reflexivity.
Qed.

Lemma B_order0_last_index_witness :
  getitem [0; 1; 2] 2 = Ok 2 /\
  (1 < 2 -> B 2 0 [0; 1; 2] 1 = Ok 0) /\
  (2 <= 1 -> B 2 0 [0; 1; 2] 1 = Raise IndexError).
Proof.
  split; [reflexivity|].
  apply (B_order0_last_index [0; 1; 2] 2 1 2); [lia|reflexivity|reflexivity].
Defined.

Lemma B_reads_only_witness :
  B 0 (Z.of_nat 1) [0; 1; 2; 9] (1 # 2)
  = B 0 (Z.of_nat 1) [0; 1; 2; 7; 5] (1 # 2).
Proof.
  apply (B_reads_only [0; 1; 2; 9] [0; 1; 2; 7; 5] (1 # 2) 1 0).
  intros j Hj.
  assert (H : j = 0%Z \/ j = 1%Z \/ j = 2%Z) by lia.
  destruct H as [-> | [-> | ->]]; reflexivity.
Defined.

(** *** Bounds on the basis values *)

Lemma Qsum_shift (count : nat) (f : nat -> Q) :
  Qsum (S count) f == f 0%nat + Qsum count (fun d => f (S d)).
Proof.
  induction count as [|c IH]; cbn [Qsum]; [ring|].
  cbn [Qsum] in IH. rewrite IH. ring.
Qed.

Lemma Qsum_le (count : nat) (f g : nat -> Q) :
  (forall d : nat, (d < count)%nat -> f d <= g d) ->
  Qsum count f <= Qsum count g.
Proof.
  induction count as [|c IH]; intros H; cbn [Qsum]; [apply Qle_refl|].
  apply Qplus_le_compat; [apply IH; intros; apply H; lia|apply H; lia].
Qed.

Lemma coef_le_1 (terma termb : Q) :
  0 <= terma -> terma <= termb -> coef terma termb <= 1.
Proof.
  intros Ha Hb. unfold coef. destruct (Qeq_bool termb 0) eqn:E.
  - apply Qle_refl.
  - apply Qeq_bool_neq in E.
    assert (Hpos : 0 < termb).
    { apply Qnot_le_lt. intros Hle. apply E. lra. }
    apply Qle_shift_div_r; [exact Hpos|]. lra.
Qed.

Section KnotBounds.

Variable kn : Z -> Q.
Variable x : Q.
Hypothesis kn_mono : forall j : Z, kn j <= kn (j + 1)%Z.

Lemma w1_Bt_le (k : nat) (i : Z) :
  w1 kn x k i * Bt kn k i x <= Bt kn k i x.
Proof.
  pose proof (Bt_nonneg kn x kn_mono k i) as Hb.
  destruct (Qlt_le_dec x (kn i)) as [Hx|Hx].
  - rewrite (Bt_zero_left kn x kn_mono k i Hx). lra.
  - destruct (Qlt_le_dec x (kn (i + Z.of_nat k + 1)%Z)) as [Hy|Hy].
    + assert (Hw : w1 kn x k i <= 1).
      { unfold w1. apply coef_le_1; [lra|].
        replace (i + Z.of_nat (S k))%Z with (i + Z.of_nat k + 1)%Z by lia.
        lra. }
      nra.
    + rewrite (Bt_zero_right kn x kn_mono k i Hy). lra.
Qed.

Lemma w2_Bt_le (k : nat) (i : Z) :
  w2 kn x k i * Bt kn k (i + 1)%Z x <= Bt kn k (i + 1)%Z x.
Proof.
  pose proof (Bt_nonneg kn x kn_mono k (i + 1)%Z) as Hb.
  destruct (Qlt_le_dec x (kn (i + 1)%Z)) as [Hx|Hx].
  - rewrite (Bt_zero_left kn x kn_mono k (i + 1)%Z Hx). lra.
  - destruct (Qlt_le_dec x (kn (i + 1 + Z.of_nat k + 1)%Z)) as [Hy|Hy].
    + assert (Hw : w2 kn x k i <= 1).
      { unfold w2.
        replace (i + Z.of_nat (S k) + 1)%Z
          with (i + 1 + Z.of_nat k + 1)%Z by lia.
        apply coef_le_1; lra. }
      nra.
    + rewrite (Bt_zero_right kn x kn_mono k (i + 1)%Z Hy). lra.
Qed.

Lemma Bt_sum_le_1_order0 (lo : Z) (count : nat) :
  Qsum count (fun d => Bt kn 0 (lo + Z.of_nat d)%Z x) <= 1.
Proof.
  induction count as [|c IH]; [discriminate|].
  cbn [Qsum].
  destruct (Qlt_le_dec x (kn (lo + Z.of_nat c)%Z)) as [Hx|Hx].
  - rewrite (Bt_zero_left kn x kn_mono 0 _ Hx). lra.
  - rewrite Qsum_zero.
    + cbn [Bt]. destruct (Qle_bool _ x); [|discriminate].
      destruct (Qlt_bool x _); discriminate.
    + intros d Hd. apply (Bt_zero_right kn x kn_mono).
      eapply Qle_trans; [|exact Hx]. apply (kn_le kn kn_mono). lia.
Qed.

(** Any run of consecutive basis functions of one order adds up to at most
    1. *)
Lemma Bt_sum_le_1 (k : nat) :
  forall (lo : Z) (count : nat),
    Qsum count (fun d => Bt kn k (lo + Z.of_nat d)%Z x) <= 1.
Proof.
  induction k as [|k IH]; intros lo count.
  - apply Bt_sum_le_1_order0.
  - destruct count as [|c]; [discriminate|].
    rewrite (Bt_sum_step kn x kn_mono k lo c).
    pose proof (w1_Bt_le k lo) as H1.
    pose proof (w2_Bt_le k (lo + Z.of_nat c)%Z) as H2.
    pose proof (IH lo (S (S c))) as H.
    rewrite Qsum_shift in H. cbn [Qsum] in H.
    replace (lo + Z.of_nat 0)%Z with lo in H by lia.
    replace (lo + Z.of_nat (S c))%Z with (lo + Z.of_nat c + 1)%Z in H by lia.
    rewrite (Qsum_ext c (fun d => Bt kn k (lo + Z.of_nat (S d))%Z x)
               (fun d => Bt kn k (lo + 1 + Z.of_nat d)%Z x)) in H.
    + lra.
    + intros d _.
      replace (lo + Z.of_nat (S d))%Z with (lo + 1 + Z.of_nat d)%Z by lia.
      reflexivity.
Qed.

Lemma Bt_le_1 (k : nat) (i : Z) : Bt kn k i x <= 1.
Proof.
  pose proof (Bt_sum_le_1 k i 1) as H. cbn [Qsum] in H.
  replace (i + Z.of_nat 0)%Z with i in H by lia. lra.
Qed.

End KnotBounds.

(** Over non-decreasing knots a basis function vanishes outside its
    support: before [t[i]] and from [t[i + k + 1]] on. *)
Theorem B_vanishes_outside_support (t : list Q) (i k : nat) (x : Q) :
  non_decreasing t -> (i + k + 1 < length t)%nat ->
  x < nth i t 0 \/ nth (i + k + 1) t 0 <= x ->
  exists q : Q, B (Z.of_nat i) (Z.of_nat k) t x = Ok q /\ q == 0.
Proof.
  intros Ht Hlen Hx. rewrite B_in_range by lia.
  eexists. split; [reflexivity|].
  apply Bt_outside; [exact Ht|exact Hlen|].
  intros [Hlo Hhi]. destruct Hx as [Hx|Hx].
  - apply (Qlt_not_le _ _ Hx Hlo).
  - apply (Qlt_not_le _ _ Hhi Hx).
Qed.

Lemma B_vanishes_outside_support_witness :
  exists q : Q,
    B (Z.of_nat 1) (Z.of_nat 2) [0; 1; 2; 3; 4; 5] (1 # 2) = Ok q /\ q == 0.
Proof.
  apply (B_vanishes_outside_support [0; 1; 2; 3; 4; 5] 1 2 (1 # 2)).
  - apply non_decreasingb_sound. reflexivity.
  - cbn [length]. lia.
  - left. reflexivity.
Defined.

Lemma B_Ok_le_1 (t : list Q) (i k : nat) (x q : Q) :
  non_decreasing t ->
  B (Z.of_nat i) (Z.of_nat k) t x = Ok q ->
  q <= 1.
Proof.
  intros Ht H. apply B_Ok_Bt in H; [|lia]. subst q.
  apply Bt_le_1. apply knot_mono. exact Ht.
Qed.

(** Over non-decreasing knots every value [__B__] returns for an index and
    an order that are not negative lies between 0 and 1. *)
Theorem B_between_0_and_1 (t : list Q) (i k : nat) (x q : Q) :
  non_decreasing t ->
  B (Z.of_nat i) (Z.of_nat k) t x = Ok q ->
  0 <= q /\ q <= 1.
Proof.
  intros Ht H. split.
  - apply (B_Ok_nonneg t x q k (Z.of_nat i) Ht); [lia|exact H].
  - apply (B_Ok_le_1 t i k x q Ht H).
Qed.

Lemma B_between_0_and_1_witness :
  0 <= ((3 # 2) - 1) / (2 - 1) * 1 + (3 - (3 # 2)) / (3 - 2) * 0 /\
  ((3 # 2) - 1) / (2 - 1) * 1 + (3 - (3 # 2)) / (3 - 2) * 0 <= 1.
Proof.
  apply (B_between_0_and_1 [0; 1; 2; 3; 4] 1 1 (3 # 2)).
  - apply non_decreasingb_sound. reflexivity.
  - reflexivity.
Defined.

(** ** Further properties of [sample] *)

Lemma basis_row_Raise (count order : nat) (t : list Q) (x : Q) (e : exn) :
  basis_row count order t x = Raise e ->
  e = IndexError /\
  exists i : nat, (i < count)%nat /\
    B (Z.of_nat i) (Z.of_nat order) t x = Raise IndexError.
Proof.
  intros H. unfold basis_row in H. apply mapM_Raise in H.
  destruct H as (i & Hin & Hi). apply in_seq in Hin.
  pose proof (B_error_kind _ _ _ _ _ Hi) as ->.
  split; [reflexivity|]. exists i. split; [lia|exact Hi].
Qed.

Lemma sample_Raise_inv (self : CentralModel) (u v : Q) (e : exn) :
  shape (a self) = [n self; m self; 3%nat] ->
  ~ grid_width self - 1 == 0 -> ~ grid_height self - 1 == 0 ->
  sample self u v = Raise e ->
  e = IndexError /\
  ((exists i : nat, (i < n self)%nat /\
      B (Z.of_nat i) (Z.of_nat (order self)) (tv self)
        (mapped (grid_width self) (image_width self) u) = Raise IndexError) \/
   (exists j : nat, (j < m self)%nat /\
      B (Z.of_nat j) (Z.of_nat (order self)) (th self)
        (mapped (grid_height self) (image_height self) v)
      = Raise IndexError)).
Proof.
  intros Hs Hgw Hgh H. unfold sample in H.
  rewrite (truediv_Ok _ _ Hgw) in H. cbn [bind] in H.
  rewrite (truediv_Ok _ _ Hgh) in H. cbn [bind] in H.
  fold (mapped (grid_width self) (image_width self) u) in H.
  fold (mapped (grid_height self) (image_height self) v) in H.
  destruct (basis_row (n self) _ (tv self) _) as [rh|e'] eqn:Eh.
  2:{ cbn [bind] in H. injection H as <-.
      apply basis_row_Raise in Eh. destruct Eh as [-> Hi].
      split; [reflexivity|left; exact Hi]. }
  cbn [bind] in H.
  destruct (basis_row (m self) _ (th self) _) as [rv|e'] eqn:Ev.
  2:{ cbn [bind] in H. injection H as <-.
      apply basis_row_Raise in Ev. destruct Ev as [-> Hj].
      split; [reflexivity|right; exact Hj]. }
  cbn [bind] in H.
  apply basis_row_inv in Eh, Ev.
  destruct (sample_loops self rh rv Hs (proj1 Eh) (proj1 Ev)) as (r & Hr & _).
  rewrite Hr in H. discriminate.
Qed.

(** The errors of [sample] on a constructed model: [ZeroDivisionError]
    exactly when a grid dimension is 1, whatever the pixel; otherwise only
    an [IndexError], raised by a basis function that reads beyond its knot
    vector; the reads of the control points and of the basis rows never
    fail. *)
Theorem sample_errors (kg : KnotVectorProvider)
    (image_dimensions grid_dimensions : py_seq) (control_points : py_array)
    (ord : nat) (knot_method : string) (minb end_divergence : Q)
    (self : CentralModel) (u v : Q) :
  init kg image_dimensions grid_dimensions control_points ord knot_method
       minb end_divergence = Ok self ->
  (sample self u v = Raise ZeroDivisionError <->
   grid_width self - 1 == 0 \/ grid_height self - 1 == 0) /\
  (forall e : exn, sample self u v = Raise e ->
     e = ZeroDivisionError \/ e = IndexError) /\
  (sample self u v = Raise IndexError ->
   (exists i : nat, (i < n self)%nat /\
      B (Z.of_nat i) (Z.of_nat (order self)) (tv self)
        (mapped (grid_width self) (image_width self) u) = Raise IndexError) \/
   (exists j : nat, (j < m self)%nat /\
      B (Z.of_nat j) (Z.of_nat (order self)) (th self)
        (mapped (grid_height self) (image_height self) v)
      = Raise IndexError)).
Proof.
  intros Hinit. apply init_constructed in Hinit.
  destruct Hinit as [[Hs _ _ _] _].
  destruct (Qeq_dec (grid_width self - 1) 0) as [Egw|Egw].
  { rewrite sample_division_by_zero by (left; exact Egw).
    split; [split; [intros _; left; exact Egw|reflexivity]|].
    split; [intros e H; left; congruence|discriminate]. }
  destruct (Qeq_dec (grid_height self - 1) 0) as [Egh|Egh].
  { rewrite sample_division_by_zero by (right; exact Egh).
    split; [split; [intros _; right; exact Egh|reflexivity]|].
    split; [intros e H; left; congruence|discriminate]. }
  split; [split|split].
  - intros H. apply (sample_Raise_inv self u v _ Hs Egw Egh) in H.
    destruct H as [H _]. discriminate.
  - intros [H|H]; contradiction.
  - intros e H. apply (sample_Raise_inv self u v _ Hs Egw Egh) in H.
    right. apply H.
  - intros H. apply (sample_Raise_inv self u v _ Hs Egw Egh) in H.
    apply H.
Qed.

Lemma sample_errors_witness :
  (sample scenario_A 3 4 = Raise ZeroDivisionError <->
   grid_width scenario_A - 1 == 0 \/ grid_height scenario_A - 1 == 0) /\
  (forall e : exn, sample scenario_A 3 4 = Raise e ->
     e = ZeroDivisionError \/ e = IndexError) /\
  (sample scenario_A 3 4 = Raise IndexError ->
   (exists i : nat, (i < n scenario_A)%nat /\
      B (Z.of_nat i) (Z.of_nat (order scenario_A)) (tv scenario_A)
        (mapped (grid_width scenario_A) (image_width scenario_A) 3)
      = Raise IndexError) \/
   (exists j : nat, (j < m scenario_A)%nat /\
      B (Z.of_nat j) (Z.of_nat (order scenario_A)) (th scenario_A)
        (mapped (grid_height scenario_A) (image_height scenario_A) 4)
      = Raise IndexError)).
Proof.
  apply (sample_errors spec_kg (PyTuple [100; 100]) (PyTuple [100; 100])
           (Ndarray (constant_grid 5 5 (0, 0, 1))) 2 "open_uniform"
           (1 # 1000) (1 # 10000000000) scenario_A 3 4).
  vm_compute. reflexivity.
Defined.

Lemma vscale_compat (s s' : vec3) (c c' : Q) :
  veq s s' -> c == c' -> veq (vscale s c) (vscale s' c').
Proof.
  destruct s as [[s0 s1] s2], s' as [[s0' s1'] s2']. cbn.
  intros (H0 & H1 & H2) Hc. rewrite H0, H1, H2, Hc. repeat split; reflexivity.
Qed.

Lemma vscale_one (s : vec3) (c : Q) : c == 1 -> veq (vscale s c) s.
Proof.
  destruct s as [[s0 s1] s2]. cbn. intros ->. repeat split; ring.
Qed.

Lemma vsum_single (count : nat) (f : nat -> vec3) (i0 : nat) :
  (i0 < count)%nat ->
  (forall i : nat, (i < count)%nat -> i <> i0 -> veq (f i) vzero) ->
  veq (vsum count f) (f i0).
Proof.
  induction count as [|c IH]; intros Hi Hz; [lia|].
  cbn [vsum]. destruct (Nat.eq_dec i0 c) as [->|Hne].
  - eapply veq_trans.
    + apply vadd_compat; [apply vsum_zero|apply veq_refl].
      intros i Hic. apply Hz; lia.
    + destruct (f c) as [[s0 s1] s2]. cbn. repeat split; ring.
  - eapply veq_trans.
    + apply vadd_compat; [apply IH|apply Hz]; try lia.
      intros i Hic Hn. apply Hz; [lia|exact Hn].
    + apply vadd_zero_r.
Qed.

Lemma vsum_vscale (count : nat) (c : vec3) (g : nat -> Q) :
  veq (vsum count (fun i => vscale c (g i))) (vscale c (Qsum count g)).
Proof.
  induction count as [|k IH]; cbn [vsum Qsum].
  - destruct c as [[c0 c1] c2]. cbn. repeat split; ring.
  - eapply veq_trans; [apply vadd_compat; [exact IH|apply veq_refl]|].
    destruct c as [[c0 c1] c2]. cbn. repeat split; ring.
Qed.

Lemma Qsum_scale_l (count : nat) (c : Q) (g : nat -> Q) :
  Qsum count (fun j => c * g j) == c * Qsum count g.
Proof.
  induction count as [|k IH]; cbn [Qsum]; [ring|]. rewrite IH. ring.
Qed.

Lemma Qsum_scale_r (count : nat) (c : Q) (g : nat -> Q) :
  Qsum count (fun j => g j * c) == Qsum count g * c.
Proof.
  induction count as [|k IH]; cbn [Qsum]; [ring|]. rewrite IH. ring.
Qed.

(** The order-0 functions over non-decreasing knots: one of them is 1 on a
    span, the others vanish there. *)
Lemma Bt_order0_on_span (t : list Q) (x : Q) (i0 i : nat) :
  non_decreasing t -> (i0 + 1 < length t)%nat ->
  nth i0 t 0 <= x -> x < nth (i0 + 1) t 0 ->
  Bt (knot t) 0 (Z.of_nat i) x == (if Nat.eqb i i0 then 1 else 0).
Proof.
  intros Ht Hlen Hlo Hhi.
  rewrite <- knot_nth in Hlo, Hhi by lia.
  destruct (Nat.eqb i i0) eqn:E.
  - apply Nat.eqb_eq in E. subst i. cbn [Bt].
    replace (Z.of_nat i0 + 1)%Z with (Z.of_nat (i0 + 1)) by lia.
    apply Qle_bool_iff in Hlo. rewrite Hlo.
    apply Qlt_bool_iff in Hhi. rewrite Hhi. reflexivity.
  - apply Nat.eqb_neq in E.
    destruct (Nat.lt_ge_cases i i0) as [Hlt|Hge].
    + apply Bt_zero_right; [apply knot_mono; exact Ht|].
      eapply Qle_trans; [|exact Hlo].
      apply kn_le; [apply knot_mono; exact Ht|lia].
    + apply Bt_zero_left; [apply knot_mono; exact Ht|].
      eapply Qlt_le_trans; [exact Hhi|].
      apply kn_le; [apply knot_mono; exact Ht|lia].
Qed.

Lemma truncated_sum_order0 (self : CentralModel) (Bh Bv : nat -> Q)
    (i0 j0 : nat) :
  (i0 < n self)%nat -> (j0 < m self)%nat -> min_basis_value self <= 1 ->
  (forall i : nat, Bh i == (if Nat.eqb i i0 then 1 else 0)) ->
  (forall j : nat, Bv j == (if Nat.eqb j j0 then 1 else 0)) ->
  veq (truncated_sum self Bh Bv) (node (a self) i0 j0).
Proof.
  intros Hi Hj Hmin Hh Hv. unfold truncated_sum.
  eapply veq_trans; [apply (vsum_single _ _ i0 Hi)|].
  - intros i _ Hne. specialize (Hh i).
    replace (Nat.eqb i i0) with false in Hh
      by (symmetry; apply Nat.eqb_neq; exact Hne).
    destruct (Qle_bool _ (Bh i)); [|apply veq_refl].
    apply vsum_zero. intros j _.
    destruct (Qle_bool _ (Bv j)); [|apply veq_refl].
    apply vscale_zero. rewrite Hh. ring.
  - pose proof (Hh i0) as Hh0. rewrite Nat.eqb_refl in Hh0.
    assert (E : Qle_bool (min_basis_value self) (Bh i0) = true)
      by (apply Qle_bool_iff; rewrite Hh0; exact Hmin).
    rewrite E.
    eapply veq_trans; [apply (vsum_single _ _ j0 Hj)|].
    + intros j _ Hne. specialize (Hv j).
      replace (Nat.eqb j j0) with false in Hv
        by (symmetry; apply Nat.eqb_neq; exact Hne).
      destruct (Qle_bool _ (Bv j)); [|apply veq_refl].
      apply vscale_zero. rewrite Hv. ring.
    + pose proof (Hv j0) as Hv0. rewrite Nat.eqb_refl in Hv0.
      assert (E' : Qle_bool (min_basis_value self) (Bv j0) = true)
        by (apply Qle_bool_iff; rewrite Hv0; exact Hmin).
      rewrite E'. apply vscale_one. rewrite Hh0, Hv0. ring.
Qed.

(** With order 0 and a threshold of at most 1, [sample] returns the control
    point of the knot spans that hold the two mapped parameters (the
    horizontal one looked up in the vertical knots, and conversely). *)
Theorem sample_order0_control_point (kg : KnotVectorProvider)
    (image_dimensions grid_dimensions : py_seq) (control_points : py_array)
    (knot_method : string) (minb end_divergence : Q)
    (self : CentralModel) (u v : Q) (i0 j0 : nat) :
  knot_contract kg ->
  init kg image_dimensions grid_dimensions control_points 0 knot_method
       minb end_divergence = Ok self ->
  minb <= 1 ->
  (n self <= m self + 1)%nat -> (m self <= n self + 1)%nat ->
  ~ grid_width self - 1 == 0 -> ~ grid_height self - 1 == 0 ->
  (i0 < n self)%nat ->
  nth i0 (tv self) 0 <= mapped (grid_width self) (image_width self) u ->
  mapped (grid_width self) (image_width self) u < nth (i0 + 1) (tv self) 0 ->
  (j0 < m self)%nat ->
  nth j0 (th self) 0 <= mapped (grid_height self) (image_height self) v ->
  mapped (grid_height self) (image_height self) v < nth (j0 + 1) (th self) 0 ->
  exists r : vec3,
    sample self u v = Ok r /\ veq r (node (a self) i0 j0).
Proof.
  intros Hkg Hinit Hmin Hnm Hmn Hgw Hgh Hi Hulo Huhi Hj Hvlo Hvhi.
  apply init_constructed in Hinit. destruct Hinit as (Hc & -> & Ho).
  destruct (constructed_knots_ok kg self Hkg Hc) as [[Sh Lh] [Sv Lv]].
  pose proof (sample_defined_in_range self u v ltac:(lia) ltac:(lia) Hgw Hgh)
    as Hd.
  destruct (sample_Ok self u v _ _ (constructed_shape _ _ Hc) Hd)
    as (r & Hr & Heq).
  exists r. split; [exact Hr|].
  eapply veq_trans; [exact Heq|].
  apply truncated_sum_order0; try assumption.
  - intros i. rewrite <- Ho.
    apply Bt_order0_on_span; [exact Sv|lia|assumption|assumption].
  - intros j. rewrite <- Ho.
    apply Bt_order0_on_span; [exact Sh|lia|assumption|assumption].
Qed.

Lemma init_scenario_B :
  init spec_kg (PyTuple [5; 5]) (PyTuple [5; 5]) (Ndarray (index_grid 3 3))
       0 "uniform" (1 # 1000) (1 # 10000000000) = Ok scenario_B.
Proof. vm_compute. reflexivity. Qed.

Lemma sample_order0_control_point_witness :
  exists r : vec3,
    sample scenario_B 1 2 = Ok r /\ veq r (node (a scenario_B) 1 2).
Proof.
  apply (sample_order0_control_point spec_kg (PyTuple [5; 5])
           (PyTuple [5; 5]) (Ndarray (index_grid 3 3)) "uniform"
           (1 # 1000) (1 # 10000000000) scenario_B 1 2 1 2).
  - exact spec_kg_contract.
  - vm_compute. reflexivity.
  - discriminate.
  - vm_compute. lia.
  - vm_compute. lia.
  - vm_compute. discriminate.
  - vm_compute. discriminate.
  - vm_compute. lia.
  - vm_compute. discriminate.
  - vm_compute. reflexivity.
  - vm_compute. lia.
  - vm_compute. discriminate.
  - vm_compute. reflexivity.
Defined.

(** *** A constant control grid *)

Lemma full_sum_constant (self : CentralModel) (Bh Bv : nat -> Q) (c : vec3) :
  (forall i j : nat, (i < n self)%nat -> (j < m self)%nat ->
     veq (node (a self) i j) c) ->
  veq (full_sum self Bh Bv)
      (vscale c (Qsum (n self) Bh * Qsum (m self) Bv)).
Proof.
  intros Hc. unfold full_sum.
  eapply veq_trans.
  - apply (vsum_ext _ _ (fun i => vscale c (Bh i * Qsum (m self) Bv))).
    intros i Hi.
    eapply veq_trans.
    + apply (vsum_ext _ _ (fun j => vscale c (Bh i * Bv j))).
      intros j Hj. apply vscale_compat; [apply Hc; assumption|reflexivity].
    + eapply veq_trans; [apply vsum_vscale|].
      apply vscale_compat; [apply veq_refl|apply Qsum_scale_l].
  - eapply veq_trans; [apply vsum_vscale|].
    apply vscale_compat; [apply veq_refl|apply Qsum_scale_r].
Qed.

(** Reproduction of constants: when every control point is [c], the
    threshold is at most 0 and both mapped parameters lie on the span
    covered by the basis functions ([t[order] <= x < t[count]], in the
    knot vector each axis is evaluated against), [sample] returns [c]. *)
Theorem sample_constant_grid (kg : KnotVectorProvider)
    (image_dimensions grid_dimensions : py_seq) (control_points : py_array)
    (ord : nat) (knot_method : string) (minb end_divergence : Q)
    (self : CentralModel) (u v : Q) (c : vec3) :
  knot_contract kg ->
  init kg image_dimensions grid_dimensions control_points ord knot_method
       minb end_divergence = Ok self ->
  minb <= 0 ->
  (n self <= m self + 1)%nat -> (m self <= n self + 1)%nat ->
  ~ grid_width self - 1 == 0 -> ~ grid_height self - 1 == 0 ->
  (forall i j : nat, (i < n self)%nat -> (j < m self)%nat ->
     veq (node (a self) i j) c) ->
  nth (order self) (tv self) 0
    <= mapped (grid_width self) (image_width self) u ->
  mapped (grid_width self) (image_width self) u < nth (n self) (tv self) 0 ->
  nth (order self) (th self) 0
    <= mapped (grid_height self) (image_height self) v ->
  mapped (grid_height self) (image_height self) v < nth (m self) (th self) 0 ->
  exists r : vec3, sample self u v = Ok r /\ veq r c.
Proof.
  intros Hkg Hinit Hmin Hnm Hmn Hgw Hgh Hconst Hulo Huhi Hvlo Hvhi.
  apply init_constructed in Hinit. destruct Hinit as (Hc & -> & _).
  destruct (constructed_knots_ok kg self Hkg Hc) as [[Sh Lh] [Sv Lv]].
  pose proof (sample_defined_in_range self u v ltac:(lia) ltac:(lia) Hgw Hgh)
    as Hd.
  destruct (sample_defined_nonneg kg self u v _ _ Hkg Hc Hd) as [Ph Pv].
  destruct (sample_Ok self u v _ _ (constructed_shape _ _ Hc) Hd)
    as (r & Hr & Heq).
  exists r. split; [exact Hr|].
  eapply veq_trans; [exact Heq|].
  eapply veq_trans.
  { apply full_sum_truncated; intros i Hi;
      (eapply Qle_trans; [exact Hmin|]); auto. }
  eapply veq_trans; [apply (full_sum_constant self _ _ c Hconst)|].
  apply vscale_one.
  rewrite (Qsum_ext (n self) _
             (fun d => Bt (knot (tv self)) (order self) (0 + Z.of_nat d)%Z
                          (mapped (grid_width self) (image_width self) u)))
    by (intros; reflexivity).
  rewrite (Qsum_ext (m self) _
             (fun d => Bt (knot (th self)) (order self) (0 + Z.of_nat d)%Z
                          (mapped (grid_height self) (image_height self) v)))
    by (intros; reflexivity).
  rewrite !Bt_partition.
  - ring.
  - apply knot_mono. exact Sh.
  - rewrite Z.add_0_l, knot_nth by lia. exact Hvlo.
  - rewrite Z.add_0_l, knot_nth by lia. exact Hvhi.
  - apply knot_mono. exact Sv.
  - rewrite Z.add_0_l, knot_nth by lia. exact Hulo.
  - rewrite Z.add_0_l, knot_nth by lia. exact Huhi.
Qed.

Lemma sample_constant_grid_witness :
  exists self : CentralModel,
    init spec_kg (PyTuple [100; 100]) (PyTuple [100; 100])
         (Ndarray (constant_grid 5 5 (0, 0, 1))) 2 "open_uniform"
         0 (1 # 10000000000) = Ok self /\
    exists r : vec3, sample self 50 50 = Ok r /\ veq r (0, 0, 1).
Proof.
  eexists. split; [vm_compute; reflexivity|].
  eapply (sample_constant_grid spec_kg (PyTuple [100; 100])
            (PyTuple [100; 100]) (Ndarray (constant_grid 5 5 (0, 0, 1))) 2
            "open_uniform" 0 (1 # 10000000000) _ 50 50 (0, 0, 1)).
  - exact spec_kg_contract.
  - vm_compute. reflexivity.
  - discriminate.
  - vm_compute. lia.
  - vm_compute. lia.
  - vm_compute. discriminate.
  - vm_compute. discriminate.
  - intros i j _ _. vm_compute. repeat split; reflexivity.
  - vm_compute. discriminate.
  - vm_compute. reflexivity.
  - vm_compute. discriminate.
  - vm_compute. reflexivity.
Defined.

(** *** A threshold above 1 *)

Lemma truncated_sum_nothing_selected (self : CentralModel) (Bh Bv : nat -> Q) :
  (forall i : nat, (i < n self)%nat -> Bh i < min_basis_value self) ->
  veq (truncated_sum self Bh Bv) vzero.
Proof.
  intros H. unfold truncated_sum. apply vsum_zero. intros i Hi.
  destruct (Qle_bool _ (Bh i)) eqn:E; [|apply veq_refl].
  apply Qle_bool_iff in E. exfalso. apply (Qlt_not_le _ _ (H i Hi) E).
Qed.

(** No basis value exceeds 1: with a threshold above 1 nothing is selected
    and [sample], whenever it returns, returns the zero vector. *)
Theorem sample_threshold_above_one (kg : KnotVectorProvider)
    (image_dimensions grid_dimensions : py_seq) (control_points : py_array)
    (ord : nat) (knot_method : string) (minb end_divergence : Q)
    (self : CentralModel) (u v : Q) (r : vec3) :
  knot_contract kg ->
  init kg image_dimensions grid_dimensions control_points ord knot_method
       minb end_divergence = Ok self ->
  1 < minb ->
  sample self u v = Ok r ->
  veq r vzero.
Proof.
  intros Hkg Hinit Hmin Hr.
  apply init_constructed in Hinit. destruct Hinit as (Hc & -> & _).
  destruct (constructed_knots_ok kg self Hkg Hc) as [[Sh Lh] [Sv Lv]].
  destruct (sample_Ok_inv _ _ _ _ Hr) as (Bh & Bv & Hd).
  destruct (sample_Ok self u v Bh Bv (constructed_shape _ _ Hc) Hd)
    as (r' & Hr' & Heq).
  assert (r' = r) by congruence. subst r'.
  eapply veq_trans; [exact Heq|].
  apply truncated_sum_nothing_selected. intros i Hi.
  destruct Hd as (_ & _ & Hh & _).
  eapply Qle_lt_trans; [|exact Hmin].
  apply (B_Ok_le_1 (tv self) i (order self) _ (Bh i) Sv
           (Hh i Hi)).
Qed.

Lemma sample_threshold_above_one_witness :
  exists self : CentralModel,
    init spec_kg (PyTuple [100; 100]) (PyTuple [100; 100])
         (Ndarray (constant_grid 5 5 (0, 0, 1))) 2 "open_uniform"
         2 (1 # 10000000000) = Ok self /\
    sample self 50 50 = Ok vzero /\ veq vzero vzero.
Proof.
  eexists. split; [vm_compute; reflexivity|].
  split; [vm_compute; reflexivity|].
  eapply (sample_threshold_above_one spec_kg (PyTuple [100; 100])
            (PyTuple [100; 100]) (Ndarray (constant_grid 5 5 (0, 0, 1))) 2
            "open_uniform" 2 (1 # 10000000000) _ 50 50 vzero).
  - exact spec_kg_contract.
  - vm_compute. reflexivity.
  - reflexivity.
  - vm_compute. reflexivity.
Defined.

(** *** Linearity in the control points *)

Lemma truncated_sum_linear (s1 s2 s3 : CentralModel) (Bh Bv : nat -> Q)
    (c1 c2 : Q) :
  n s2 = n s1 -> n s3 = n s1 -> m s2 = m s1 -> m s3 = m s1 ->
  min_basis_value s2 = min_basis_value s1 ->
  min_basis_value s3 = min_basis_value s1 ->
  (forall i j : nat, (i < n s1)%nat -> (j < m s1)%nat ->
     veq (node (a s3) i j)
         (vadd (vscale (node (a s1) i j) c1) (vscale (node (a s2) i j) c2))) ->
  veq (truncated_sum s3 Bh Bv)
      (vadd (vscale (truncated_sum s1 Bh Bv) c1)
            (vscale (truncated_sum s2 Bh Bv) c2)).
Proof.
  intros Hn2 Hn3 Hm2 Hm3 Hb2 Hb3 Hnode. unfold truncated_sum.
  rewrite Hn2, Hn3, Hm2, Hm3, Hb2, Hb3.
  generalize (min_basis_value s1). intros mb.
  assert (Hvs : forall (count : nat) (f1 f2 f3 : nat -> vec3),
             (forall i : nat, (i < count)%nat ->
                veq (f3 i) (vadd (vscale (f1 i) c1) (vscale (f2 i) c2))) ->
             veq (vsum count f3)
                 (vadd (vscale (vsum count f1) c1)
                       (vscale (vsum count f2) c2))).
  { induction count as [|k IH]; intros f1 f2 f3 H; cbn [vsum].
    - cbn. repeat split; ring.
    - specialize (IH f1 f2 f3 ltac:(intros; apply H; lia)).
      specialize (H k ltac:(lia)).
      destruct (vsum k f1) as [[x0 x1] x2], (vsum k f2) as [[y0 y1] y2],
               (vsum k f3) as [[z0 z1] z2], (f1 k) as [[p0 p1] p2],
               (f2 k) as [[q0 q1] q2], (f3 k) as [[r0 r1] r2].
      cbn in *. destruct IH as (I0 & I1 & I2), H as (H0 & H1 & H2).
      rewrite I0, I1, I2, H0, H1, H2. repeat split; ring. }
  apply Hvs. intros i Hi.
  destruct (Qle_bool mb (Bh i)); [|cbn; repeat split; ring].
  apply Hvs. intros j Hj.
  destruct (Qle_bool mb (Bv j)); [|cbn; repeat split; ring].
  specialize (Hnode i j Hi Hj).
  destruct (node (a s1) i j) as [[p0 p1] p2],
           (node (a s2) i j) as [[q0 q1] q2],
           (node (a s3) i j) as [[r0 r1] r2].
  cbn in *. destruct Hnode as (H0 & H1 & H2).
  rewrite H0, H1, H2. repeat split; ring.
Qed.

(** [sample] is linear in the control points: for three models that
    differ in their control points only, the third grid being the
    combination [c1 * first + c2 * second] node by node, the third sample
    is the same combination of the first two. *)
Theorem sample_linear_in_control_points
    (iw ih gw gh : Q) (n0 m0 ord : nat) (knots_h knots_v : list Q) (minb : Q)
    (cp1 cp2 cp3 : ndarray) (c1 c2 : Q) (u v : Q) (r1 r2 : vec3) :
  let model := fun cp : ndarray =>
    {| image_width := iw; image_height := ih;
       grid_width := gw; grid_height := gh;
       n := n0; m := m0; a := cp; order := ord;
       th := knots_h; tv := knots_v; min_basis_value := minb |} in
  shape cp1 = [n0; m0; 3%nat] ->
  shape cp2 = [n0; m0; 3%nat] ->
  shape cp3 = [n0; m0; 3%nat] ->
  (forall i j : nat, (i < n0)%nat -> (j < m0)%nat ->
     veq (node cp3 i j)
         (vadd (vscale (node cp1 i j) c1) (vscale (node cp2 i j) c2))) ->
  sample (model cp1) u v = Ok r1 ->
  sample (model cp2) u v = Ok r2 ->
  exists r3 : vec3,
    sample (model cp3) u v = Ok r3 /\
    veq r3 (vadd (vscale r1 c1) (vscale r2 c2)).
Proof.
  intros model Hs1 Hs2 Hs3 Hnode Hr1 Hr2.
  destruct (sample_Ok_inv _ _ _ _ Hr1) as (Bh & Bv & Hd).
  destruct (sample_Ok (model cp1) u v Bh Bv Hs1 Hd) as (r1' & Hr1' & E1).
  assert (r1' = r1) by congruence. subst r1'.
  destruct (sample_Ok (model cp2) u v Bh Bv Hs2 Hd) as (r2' & Hr2' & E2).
  assert (r2' = r2) by congruence. subst r2'.
  destruct (sample_Ok (model cp3) u v Bh Bv Hs3 Hd) as (r3 & Hr3 & E3).
  exists r3. split; [exact Hr3|].
  eapply veq_trans; [exact E3|].
  eapply veq_trans.
  - apply (truncated_sum_linear (model cp1) (model cp2) (model cp3) Bh Bv
             c1 c2); try reflexivity. exact Hnode.
  - apply vadd_compat; (apply vscale_compat; [apply veq_sym; assumption|
                                              reflexivity]).
Qed.

Lemma sample_linear_in_control_points_witness :
  let cp3 := {| shape := [3%nat; 3%nat; 3%nat];
                item := fun idx => item (index_grid 3 3) idx * 2
                                   + item (constant_grid 3 3 (1, 1, 1)) idx * 3
             |} in
  let model := fun cp : ndarray =>
    {| image_width := 5; image_height := 5; grid_width := 5; grid_height := 5;
       n := 3; m := 3; a := cp; order := 0;
       th := spec_uniform 3 0; tv := spec_uniform 3 0;
       min_basis_value := 1 # 1000 |} in
  exists r1 r2 r3 : vec3,
    sample (model (index_grid 3 3)) 1 2 = Ok r1 /\
    sample (model (constant_grid 3 3 (1, 1, 1))) 1 2 = Ok r2 /\
    sample (model cp3) 1 2 = Ok r3 /\
    veq r3 (vadd (vscale r1 2) (vscale r2 3)).
Proof.
  intros cp3 model.
  assert (H1 : exists r1, sample (model (index_grid 3 3)) 1 2 = Ok r1)
    by (eexists; vm_compute; reflexivity).
  assert (H2 : exists r2,
             sample (model (constant_grid 3 3 (1, 1, 1))) 1 2 = Ok r2)
    by (eexists; vm_compute; reflexivity).
  destruct H1 as [r1 Hr1]. destruct H2 as [r2 Hr2].
  destruct (sample_linear_in_control_points 5 5 5 5 3 3 0
              (spec_uniform 3 0) (spec_uniform 3 0) (1 # 1000)
              (index_grid 3 3) (constant_grid 3 3 (1, 1, 1)) cp3 2 3 1 2
              r1 r2) as (r3 & Hr3 & Heq).
  - reflexivity.
  - reflexivity.
  - reflexivity.
  - intros i j _ _. cbn. repeat split; reflexivity.
  - exact Hr1.
  - exact Hr2.
  - exists r1, r2, r3. repeat split; assumption.
Defined.

(** ** Further properties of [sample_normalized] *)

Lemma Q2R_dot (s : vec3) :
  Q2R (dot s s)
  = (Q2R (fst (fst s)) * Q2R (fst (fst s))
     + Q2R (snd (fst s)) * Q2R (snd (fst s))
     + Q2R (snd s) * Q2R (snd s))%R.
Proof.
  destruct s as [[s0 s1] s2]. cbn [dot fst snd].
  rewrite !Q2R_plus, !Q2R_mult. reflexivity.
Qed.

(** Where [sample] returns a vector that is not zero,
    [sample_normalized] returns three finite components whose squares add
    up to 1: a unit vector. *)
Theorem sample_normalized_unit (self : CentralModel) (u v : Q) (s : vec3) :
  sample self u v = Ok s -> ~ veq s vzero ->
  exists r0 r1 r2 : R,
    sample_normalized self u v
    = Ok (np_finite r0, np_finite r1, np_finite r2) /\
    (r0 * r0 + r1 * r1 + r2 * r2 = 1)%R.
Proof.
  intros Hs Hz.
  rewrite (sample_normalized_nonzero self u v s Hs Hz).
  do 3 eexists. split; [reflexivity|].
  pose proof (norm_pos s Hz) as Hpos.
  assert (Hsq : (np_linalg_norm s * np_linalg_norm s = Q2R (dot s s))%R).
  { unfold np_linalg_norm. apply sqrt_sqrt.
    rewrite <- RMicromega.Q2R_0. apply Qle_Rle.
    apply Qlt_le_weak, dot_pos, Hz. }
  rewrite Q2R_dot in Hsq.
  set (d := np_linalg_norm s) in *.
  set (x0 := Q2R (fst (fst s))) in *.
  set (x1 := Q2R (snd (fst s))) in *.
  set (x2 := Q2R (snd s)) in *.
  assert (Hd : d <> 0%R)
    by (intro K; rewrite K in Hpos; apply (Rlt_irrefl 0 Hpos)).
  replace (x0 / d * (x0 / d) + x1 / d * (x1 / d) + x2 / d * (x2 / d))%R
    with ((x0 * x0 + x1 * x1 + x2 * x2) / (d * d))%R by (field; exact Hd).
  rewrite <- Hsq. field. exact Hd.
Qed.

Lemma sample_normalized_unit_witness :
  exists r0 r1 r2 : R,
    sample_normalized scenario_B 1 2
    = Ok (np_finite r0, np_finite r1, np_finite r2) /\
    (r0 * r0 + r1 * r1 + r2 * r2 = 1)%R.
Proof.
  assert (H : exists s : vec3,
             sample scenario_B 1 2 = Ok s /\ ~ veq s vzero).
  { eexists. split; [vm_compute; reflexivity|].
    vm_compute. intros (H & _). discriminate. }
  destruct H as (s & Hs & Hz).
  exact (sample_normalized_unit scenario_B 1 2 s Hs Hz).
Defined.

(** ** The grid of samples *)

Lemma fmapM_Some {A B : Type} (f : A -> finite B) (g : A -> result B)
    (l : list A) :
  (forall x : A, In x l -> f x = Some (g x)) -> fmapM f l = Some (mapM g l).
Proof.
  induction l as [|x l IH]; intros H; [reflexivity|].
  cbn [fmapM mapM]. rewrite (H x) by (left; reflexivity).
  rewrite IH by (intros; apply H; right; assumption).
  unfold fbind, fret, bind.
  destruct (g x); [|reflexivity]. destruct (mapM g l); reflexivity.
Qed.

Lemma fmapM_None {A B : Type} (f : A -> finite B) (l : list A) :
  l <> [] -> (forall x : A, In x l -> f x = None) -> fmapM f l = None.
Proof.
  destruct l as [|x l]; intros Hne H; [contradiction|].
  cbn [fmapM]. rewrite (H x) by (left; reflexivity). reflexivity.
Qed.

Lemma nth_error_map_seq {A : Type} (f : nat -> A) (count i : nat) :
  (i < count)%nat -> nth_error (map f (seq 0 count)) i = Some (f i).
Proof.
  intros Hi. rewrite nth_error_map, nth_error_seq.
  replace (i <? count)%nat with true by (symmetry; apply Nat.ltb_lt; exact Hi).
  reflexivity.
Qed.

(** [np.transpose(np.meshgrid(xs, ys))[i, j]] is the pair
    [(xs[i], ys[j])]. *)
Lemma transpose_meshgrid (xs ys : list Q) (i j : nat) :
  (i < length xs)%nat -> (j < length ys)%nat ->
  getitem3 (np_transpose (np_meshgrid xs ys)) i j 0 = Ok (nth i xs 0) /\
  getitem3 (np_transpose (np_meshgrid xs ys)) i j 1 = Ok (nth j ys 0).
Proof.
  intros Hi Hj. unfold getitem3, np_transpose, np_meshgrid.
  cbn [length nth].
  assert (Hrow : nth 0 (map (fun _ : Q => xs) ys) [] = xs).
  { destruct ys as [|y ys]; [cbn [length] in Hj; lia|reflexivity]. }
  rewrite Hrow, length_map.
  rewrite (nth_error_map_seq _ (length xs) i Hi).
  rewrite (nth_error_map_seq _ (length ys) j Hj).
  cbn [seq map nth_error nth].
  assert (HX : nth j (map (fun _ : Q => xs) ys) [] = xs).
  { rewrite (nth_indep _ [] ((fun _ : Q => xs) 0))
      by (rewrite length_map; exact Hj).
    rewrite (map_nth (fun _ : Q => xs) ys 0 j). reflexivity. }
  assert (HY : nth i (nth j (map (fun y : Q => map (fun _ : Q => y) xs) ys) [])
                   0 = nth j ys 0).
  { rewrite (nth_indep _ [] ((fun y : Q => map (fun _ : Q => y) xs) 0))
      by (rewrite length_map; exact Hj).
    rewrite (map_nth (fun y : Q => map (fun _ : Q => y) xs) ys 0 j).
    rewrite (nth_indep _ 0 ((fun _ : Q => nth j ys 0) 0))
      by (rewrite length_map; exact Hi).
    rewrite (map_nth (fun _ : Q => nth j ys 0) xs 0 i). reflexivity. }
  rewrite HX, HY. split; reflexivity.
Qed.

Lemma inject_Z_pred_zero (count : nat) :
  inject_Z (Z.of_nat count - 1) == 0 <-> count = 1%nat.
Proof.
  unfold Qeq. cbn [Qnum Qden inject_Z]. lia.
Qed.

Lemma grid_axis_Ok (extent : Q) (count : nat) :
  count <> 1%nat ->
  grid_axis extent count
  = Ok (map (fun k : nat => grid_coord extent count k) (seq 0 count)).
Proof.
  intros Hc. unfold grid_axis.
  rewrite truediv_Ok by (rewrite inject_Z_pred_zero; exact Hc).
  cbn [bind]. unfold np_arange. rewrite map_map. reflexivity.
Qed.

Lemma grid_axis_Raise (extent : Q) :
  grid_axis extent 1 = Raise ZeroDivisionError.
Proof.
  unfold grid_axis. rewrite truediv_Raise; [reflexivity|].
  apply inject_Z_pred_zero. reflexivity.
Qed.

Lemma nth_grid_axis (extent : Q) (count i : nat) :
  (i < count)%nat ->
  nth i (map (fun k : nat => grid_coord extent count k) (seq 0 count)) 0
  = grid_coord extent count i.
Proof.
  intros Hi. apply (nth_map_seq (fun k => grid_coord extent count k)). exact Hi.
Qed.

Lemma np_sample_Some (self : CentralModel) (u v : Q) :
  ~ grid_width self - 1 == 0 -> ~ grid_height self - 1 == 0 ->
  np_sample self u v = Some (sample self u v).
Proof.
  intros Hgw Hgh. unfold np_sample.
  destruct (Qeq_bool (grid_width self - 1) 0) eqn:E1;
    [apply Qeq_bool_iff in E1; contradiction|].
  destruct (Qeq_bool (grid_height self - 1) 0) eqn:E2;
    [apply Qeq_bool_iff in E2; contradiction|].
  reflexivity.
Qed.

(** With more than one node per axis and grid dimensions other than 1,
    [sample_grid] is the table of the samples at the grid coordinates. *)
Lemma sample_grid_table (self : CentralModel) :
  n self <> 1%nat -> m self <> 1%nat ->
  ~ grid_width self - 1 == 0 -> ~ grid_height self - 1 == 0 ->
  sample_grid self
  = Some (mapM (fun i : nat =>
            mapM (fun j : nat =>
                    sample self (grid_coord (grid_width self) (n self) i)
                                (grid_coord (grid_height self) (m self) j))
                 (seq 0 (m self)))
          (seq 0 (n self))).
Proof.
  intros Hn Hm Hgw Hgh. unfold sample_grid.
  rewrite (grid_axis_Ok _ _ Hn), (grid_axis_Ok _ _ Hm).
  cbn [lift fbind].
  apply fmapM_Some. intros i Hi. apply in_seq in Hi.
  apply fmapM_Some. intros j Hj. apply in_seq in Hj.
  destruct (transpose_meshgrid
              (map (fun k : nat => grid_coord (grid_width self) (n self) k)
                   (seq 0 (n self)))
              (map (fun k : nat => grid_coord (grid_height self) (m self) k)
                   (seq 0 (m self))) i j) as [Hx Hy];
    [rewrite length_map, length_seq; lia ..|].
  rewrite Hx, Hy. cbn [lift fbind].
  rewrite !nth_grid_axis by lia.
  apply np_sample_Some; assumption.
Qed.

(** [sample_grid] divides by [n - 1] and by [m - 1]: a control grid with a
    single node along an axis makes it raise [ZeroDivisionError], before
    any sample is taken. *)
Theorem sample_grid_single_node (self : CentralModel) :
  n self = 1%nat \/ m self = 1%nat ->
  sample_grid self = Some (Raise ZeroDivisionError).
Proof.
  intros H. unfold sample_grid.
  destruct (Nat.eq_dec (n self) 1) as [Hn|Hn].
  - rewrite Hn, grid_axis_Raise. reflexivity.
  - destruct H as [H|H]; [contradiction|].
    rewrite (grid_axis_Ok _ _ Hn). cbn [lift fbind].
    rewrite H, grid_axis_Raise. reflexivity.
Qed.

Lemma sample_grid_single_node_witness :
  exists self : CentralModel,
    init spec_kg (PyTuple [5; 5]) (PyTuple [5; 5])
         (Ndarray (index_grid 1 3)) 0 "uniform"
         (1 # 1000) (1 # 10000000000) = Ok self /\
    sample_grid self = Some (Raise ZeroDivisionError).
Proof.
  eexists. split; [vm_compute; reflexivity|].
  apply sample_grid_single_node. left. reflexivity.
Defined.




Lemma mapM_total {A B : Type} (f : A -> result B) (l : list A) :
  (forall x : A, In x l -> exists y : B, f x = Ok y) ->
  exists ys : list B, mapM f l = Ok ys.
Proof.
  induction l as [|x l IH]; intros H; [exists []; reflexivity|].
  destruct (H x (or_introl eq_refl)) as [y Hy].
  destruct (IH (fun x' Hx' => H x' (or_intror Hx'))) as [ys Hys].
  exists (y :: ys). cbn [mapM]. rewrite Hy. cbn [bind]. rewrite Hys.
  reflexivity.
Qed.

(** On a constructed model with a square control grid of more than one
    node per axis and grid dimensions other than 1, [sample_grid] returns
    its [n] rows: no sample reads a knot out of range. *)
Theorem sample_grid_square_returns (kg : KnotVectorProvider)
    (image_dimensions grid_dimensions : py_seq) (control_points : py_array)
    (ord : nat) (knot_method : string) (minb end_divergence : Q)
    (self : CentralModel) :
  knot_contract kg ->
  init kg image_dimensions grid_dimensions control_points ord knot_method
       minb end_divergence = Ok self ->
  n self = m self -> n self <> 1%nat ->
  ~ grid_width self - 1 == 0 -> ~ grid_height self - 1 == 0 ->
  exists rows : list (list vec3),
    sample_grid self = Some (Ok rows) /\ length rows = n self.
Proof.
  intros Hkg Hinit Hsq Hn Hgw Hgh.
  apply init_constructed in Hinit. destruct Hinit as (Hc & _ & _).
  destruct (constructed_knots_ok kg self Hkg Hc) as [[Sh Lh] [Sv Lv]].
  rewrite (sample_grid_table self Hn ltac:(lia) Hgw Hgh).
  destruct (mapM_total
              (fun i : nat =>
                 mapM (fun j : nat =>
                         sample self (grid_coord (grid_width self) (n self) i)
                           (grid_coord (grid_height self) (m self) j))
                      (seq 0 (m self)))
              (seq 0 (n self))) as [rows Hrows].
  - intros i _. apply mapM_total. intros j _.
    pose proof (sample_defined_in_range self
                  (grid_coord (grid_width self) (n self) i)
                  (grid_coord (grid_height self) (m self) j)
                  ltac:(lia) ltac:(lia) Hgw Hgh) as Hd.
    destruct (sample_Ok self _ _ _ _ (constructed_shape _ _ Hc) Hd)
      as (r & Hr & _).
    exists r. exact Hr.
  - exists rows. split; [rewrite Hrows; reflexivity|].
    apply mapM_inv in Hrows. destruct Hrows as [Hlen _].
    rewrite length_seq in Hlen. exact Hlen.
Qed.

Lemma sample_grid_square_returns_witness :
  exists rows : list (list vec3),
    sample_grid scenario_A = Some (Ok rows) /\ length rows = n scenario_A.
Proof.
  apply (sample_grid_square_returns spec_kg (PyTuple [100; 100])
           (PyTuple [100; 100]) (Ndarray (constant_grid 5 5 (0, 0, 1))) 2
           "open_uniform" (1 # 1000) (1 # 10000000000) scenario_A).
  - exact spec_kg_contract.
  - vm_compute. reflexivity.
  - reflexivity.
  - vm_compute. lia.
  - vm_compute. discriminate.
  - vm_compute. discriminate.
Defined.

(** *** The grid coordinates *)

Lemma grid_step_nonneg (extent : Q) (count : nat) :
  1 <= extent -> (2 <= count)%nat ->
  0 <= (extent - 1) / inject_Z (Z.of_nat count - 1).
Proof.
  intros He Hc. apply Qle_shift_div_l.
  - replace 0 with (inject_Z 0) by reflexivity. rewrite <- Zlt_Qlt. lia.
  - lra.
Qed.

Lemma grid_step_last (extent : Q) (count : nat) :
  (2 <= count)%nat ->
  (extent - 1) / inject_Z (Z.of_nat count - 1)
  * inject_Z (Z.of_nat (count - 1)) == extent - 1.
Proof.
  intros Hc. rewrite Nat2Z.inj_sub by lia. change (Z.of_nat 1) with 1%Z.
  field. rewrite inject_Z_pred_zero. lia.
Qed.

Lemma grid_coord_first (extent : Q) (count : nat) :
  grid_coord extent count 0 == 0.
Proof.
  unfold grid_coord, np_floor.
  assert (E : (extent - 1) / inject_Z (Z.of_nat count - 1)
              * inject_Z (Z.of_nat 0) == 0) by (cbn [Z.of_nat]; ring).
  rewrite E. reflexivity.
Qed.

Lemma grid_coord_last (extent : Q) (count : nat) :
  (2 <= count)%nat ->
  grid_coord extent count (count - 1) = np_floor (extent - 1).
Proof.
  intros Hc. unfold grid_coord, np_floor.
  rewrite (grid_step_last extent count Hc). reflexivity.
Qed.

Lemma grid_coord_mono (extent : Q) (count k k' : nat) :
  1 <= extent -> (2 <= count)%nat -> (k <= k')%nat ->
  grid_coord extent count k <= grid_coord extent count k'.
Proof.
  intros He Hc Hk. unfold grid_coord, np_floor.
  rewrite <- Zle_Qle. apply Qfloor_resp_le.
  rewrite !(Qmult_comm ((extent - 1) / inject_Z (Z.of_nat count - 1))).
  apply Qmult_le_compat_r; [|apply grid_step_nonneg; assumption].
  rewrite <- Zle_Qle. lia.
Qed.

Lemma grid_coord_bounds (extent : Q) (count k : nat) :
  1 <= extent -> (2 <= count)%nat -> (k < count)%nat ->
  0 <= grid_coord extent count k /\ grid_coord extent count k <= extent - 1.
Proof.
  intros He Hc Hk. split.
  - rewrite <- (grid_coord_first extent count).
    apply grid_coord_mono; [assumption|assumption|lia].
  - eapply Qle_trans;
      [apply (grid_coord_mono extent count k (count - 1)); [assumption ..|lia]|].
    rewrite grid_coord_last by exact Hc. apply Qfloor_le.
Qed.

(** The pixel coordinates [sample_grid] visits along an axis of at least
    two nodes and extent at least 1: [count] integers that start at 0,
    never decrease and stay between 0 and [extent - 1]. *)
Theorem grid_axis_points (extent : Q) (count : nat) :
  1 <= extent -> (2 <= count)%nat ->
  exists xs : list Q,
    grid_axis extent count = Ok xs /\
    length xs = count /\
    nth 0 xs 0 == 0 /\
    (forall k : nat, (S k < count)%nat -> nth k xs 0 <= nth (S k) xs 0) /\
    (forall k : nat, (k < count)%nat ->
       nth k xs 0 = inject_Z (Qfloor (nth k xs 0)) /\
       0 <= nth k xs 0 /\ nth k xs 0 <= extent - 1).
Proof.
  intros He Hc. eexists. split; [apply grid_axis_Ok; lia|].
  split; [rewrite length_map, length_seq; reflexivity|].
  split; [rewrite nth_grid_axis by lia; apply grid_coord_first|].
  split.
  - intros k Hk. rewrite !nth_grid_axis by lia.
    apply grid_coord_mono; [assumption|assumption|lia].
  - intros k Hk. rewrite !nth_grid_axis by lia. split.
    + unfold grid_coord, np_floor. rewrite Qfloor_Z. reflexivity.
    + apply grid_coord_bounds; assumption.
Qed.

Lemma grid_axis_points_witness :
  exists xs : list Q,
    grid_axis 100 5 = Ok xs /\
    length xs = 5%nat /\
    nth 0 xs 0 == 0 /\
    (forall k : nat, (S k < 5)%nat -> nth k xs 0 <= nth (S k) xs 0) /\
    (forall k : nat, (k < 5)%nat ->
       nth k xs 0 = inject_Z (Qfloor (nth k xs 0)) /\
       0 <= nth k xs 0 /\ nth k xs 0 <= 100 - 1).
Proof.
  apply (grid_axis_points 100 5); [discriminate|lia].
Defined.

(** *** The far edge of the grid of samples *)



(** ** Rectangular and near-square grids *)

Lemma sample_short_knots_raise_witness :
  exists self : CentralModel,
    init spec_kg (PyTuple [100; 100]) (PyTuple [100; 100])
         (Ndarray (constant_grid 8 2 (0, 0, 1))) 1 "open_uniform"
         (1 # 1000) (1 # 10000000000) = Ok self /\
    sample self 50 50 = Raise IndexError.
Proof.
  eexists. split; [vm_compute; reflexivity|].
  apply sample_short_knots_raise.
  - vm_compute. lia.
  - vm_compute. discriminate.
  - vm_compute. discriminate.
Defined.

(** On a constructed model whose grid counts differ by at most one and
    whose grid dimensions are not 1, a pixel mapped outside every basis
    function's support on one axis is sampled as the zero vector. *)
Theorem sample_zero_outside_support (kg : KnotVectorProvider)
    (image_dimensions grid_dimensions : py_seq) (control_points : py_array)
    (ord : nat) (knot_method : string) (minb end_divergence : Q)
    (self : CentralModel) (u v : Q) :
  knot_contract kg ->
  init kg image_dimensions grid_dimensions control_points ord knot_method
       minb end_divergence = Ok self ->
  (n self <= m self + 1)%nat -> (m self <= n self + 1)%nat ->
  ~ grid_width self - 1 == 0 -> ~ grid_height self - 1 == 0 ->
  outside_supports (tv self) (n self) (order self)
    (mapped (grid_width self) (image_width self) u) \/
  outside_supports (th self) (m self) (order self)
    (mapped (grid_height self) (image_height self) v) ->
  exists r : vec3, sample self u v = Ok r /\ veq r vzero.
Proof.
  exact (sample_outside_support_zero kg image_dimensions grid_dimensions
           control_points ord knot_method minb end_divergence self u v).
Qed.

Lemma sample_zero_outside_support_witness :
  exists r : vec3, sample scenario_A 99 99 = Ok r /\ veq r vzero.
Proof.
  apply (sample_zero_outside_support spec_kg (PyTuple [100; 100])
           (PyTuple [100; 100]) (Ndarray (constant_grid 5 5 (0, 0, 1))) 2
           "open_uniform" (1 # 1000) (1 # 10000000000) scenario_A 99 99).
  - exact spec_kg_contract.
  - vm_compute. reflexivity.
  - vm_compute. lia.
  - vm_compute. lia.
  - vm_compute. discriminate.
  - vm_compute. discriminate.
  - left. apply beyond_last_knot_outside.
    + apply non_decreasingb_sound. vm_compute. reflexivity.
    + vm_compute. lia.
    + vm_compute. discriminate.
Defined.

(** ** What the constructor stores *)

(** A constructed model holds the two dimension pairs, the control points
    with [n] and [m] their first two extents, the order and the threshold;
    its horizontal knots are generated for [n] and its vertical knots for
    [m] by the selected strategy; [end_divergence] has no effect. *)
Theorem init_stores (kg : KnotVectorProvider)
    (image_dimensions grid_dimensions : py_seq) (control_points : py_array)
    (ord : nat) (knot_method : string) (minb end_divergence : Q)
    (self : CentralModel) :
  init kg image_dimensions grid_dimensions control_points ord knot_method
       minb end_divergence = Ok self ->
  image_dimensions = PyTuple [image_width self; image_height self] /\
  grid_dimensions = PyTuple [grid_width self; grid_height self] /\
  control_points = Ndarray (a self) /\
  shape (a self) = [n self; m self; 3%nat] /\
  order self = ord /\ min_basis_value self = minb /\
  (knot_method = "open_uniform"%string ->
   th self = open_uniform kg (n self) ord /\
   tv self = open_uniform kg (m self) ord) /\
  (knot_method = "uniform"%string ->
   th self = uniform kg (n self) ord /\ tv self = uniform kg (m self) ord) /\
  forall other : Q,
    init kg image_dimensions grid_dimensions control_points ord knot_method
         minb other = Ok self.
Proof.
  intros H.
  destruct (init_cases kg image_dimensions grid_dimensions control_points
              ord knot_method minb end_divergence)
    as [[_ He]|[Hc _]]; [congruence|].
  destruct Hc as (Hm & (iw & ih & ->) & (gw & gh & ->)
                  & cp & n0 & m0 & -> & Hs & Hlt).
  assert (Ho : ((ord <? n0)%nat && (ord <? m0)%nat)%bool = true).
  { apply andb_true_iff. split; apply Nat.ltb_lt; lia. }
  unfold init in *. unfold shape_getitem in *. rewrite Hs in *.
  cbn [nth_error bind] in *. rewrite Ho in *.
  destruct Hm as [-> | ->];
    cbn [existsb String.eqb Ascii.eqb Bool.eqb orb py_assert bind is_tuple
         seq_items length Nat.eqb andb is_rank3_depth3 seq_getitem nth_error
         fst snd] in *;
    rewrite Hs in *;
    cbn [length last Nat.eqb andb py_assert bind] in *;
    injection H as <-;
    cbn [image_width image_height grid_width grid_height a n m order th tv
         min_basis_value];
    (repeat split; try assumption; try reflexivity; try discriminate);
    intros; split; reflexivity.
Qed.

Lemma init_stores_witness :
  PyTuple [100; 100]
  = PyTuple [image_width scenario_A; image_height scenario_A] /\
  PyTuple [100; 100]
  = PyTuple [grid_width scenario_A; grid_height scenario_A] /\
  Ndarray (constant_grid 5 5 (0, 0, 1)) = Ndarray (a scenario_A) /\
  shape (a scenario_A) = [n scenario_A; m scenario_A; 3%nat] /\
  order scenario_A = 2%nat /\ min_basis_value scenario_A = 1 # 1000 /\
  ("open_uniform"%string = "open_uniform"%string ->
   th scenario_A = open_uniform spec_kg (n scenario_A) 2 /\
   tv scenario_A = open_uniform spec_kg (m scenario_A) 2) /\
  ("open_uniform"%string = "uniform"%string ->
   th scenario_A = uniform spec_kg (n scenario_A) 2 /\
   tv scenario_A = uniform spec_kg (m scenario_A) 2) /\
  forall other : Q,
    init spec_kg (PyTuple [100; 100]) (PyTuple [100; 100])
         (Ndarray (constant_grid 5 5 (0, 0, 1))) 2 "open_uniform"
         (1 # 1000) other = Ok scenario_A.
Proof.
  apply (init_stores spec_kg (PyTuple [100; 100]) (PyTuple [100; 100])
           (Ndarray (constant_grid 5 5 (0, 0, 1))) 2 "open_uniform"
           (1 # 1000) (1 # 10000000000) scenario_A).
  vm_compute. reflexivity.
Defined.
